(** * Pattern watcher (scripts/watcher.py) and its supervisor
      (scripts/unified_watcher.py): a shallow embedding.

    Python dicts become stdpp [gmap]s, Python sets [gset]s.  The
    filesystem is a snapshot: [None] when the projects root is missing,
    otherwise the list of entries of [CLAUDE_PROJECTS_BASE] in iteration
    order, each with its [*.jsonl] files as lists of lines. *)

From stdpp Require Import base gmap sets list strings.
From Stdlib Require Import ZArith Sorting.Sorted.

Local Open Scope string_scope.
Local Open Scope list_scope.

(** ** Log lines *)

(** The "timestamp" field as read by [entry.get("timestamp", "")]:
    absent or empty ([TsNone]), present but rejected by
    [datetime.fromisoformat] ([TsBad]), or parsed, with its
    [%Y-%m-%d] rendering. *)
Inductive ts := TsNone | TsBad | TsAt (date : string).

(** A JSON object of one log line.  Absent string fields are [""]
    (Python's [None] and [""] are both falsy, which is all the code
    looks at).  [content] holds the plain-text blocks of the message. *)
Record entry := mkEntry {
  etype : string;
  uuid : string;
  requestId : string;
  timestamp : ts;
  content : list string
}.

(** One line of a [*.jsonl] file, as the text-mode reader sees it:
    [LBadUtf8] is a line the default (UTF-8) decoder rejects, so the
    [for line in f] iteration itself raises; [LBadJson] decodes but
    [json.loads] raises (truncated or otherwise invalid JSON). *)
Inductive line := LBadUtf8 | LBadJson | LJson (e : entry).

Record projdir := mkProj {
  pd_name : string;
  pd_is_dir : bool;
  pd_files : list (list line)
}.

Definition fsys := option (list projdir).

(** The configuration imported from [claude_counter]: the tracked pattern
    names (keys of [PATTERNS], in dict order), whether the compiled
    pattern of a name finds a match in a text, and
    [get_project_display_name]. *)
Record config := mkConfig {
  PATTERNS : list string;
  pattern_matches_text : string -> string -> bool;
  get_project_display_name : string -> string
}.

(** Result of [process_message_entry]: [msg_id], [date_str] and
    [text_blocks], each block paired with the names of the patterns
    matching it (the keys of the [matched_patterns] dict). *)
Record result := mkResult {
  msg_id : string;
  date_str : string;
  text_blocks : list (string * list string)
}.

(** The in-memory copies of the four stores of the Entry Store. *)
Record store := mkStore {
  processed_ids : gset string;
  project_counts : gmap string nat;
  pattern_counts : gmap string (gmap string nat);
  total_messages_counts : gmap string nat
}.

(** Observable effects: the [save_*] writes (whole file, the value
    written), the calls of [upload_to_api], and printed diagnostics. *)
Inductive event :=
  | SaveTotal (m : gmap string nat)
  | SaveProcessed (s : gset string)
  | SaveProject (m : gmap string nat)
  | SavePattern (name : string) (m : gmap string nat)
  | Upload (url : string) (secret : option string) (date : string)
      (pats : list (string * nat)) (total : nat)
  | Say (msg : string).

(** State of [backfill_today_patterns]: its local [pattern_matches] and
    [seen_today], and the [processed_ids] and [project_counts] objects
    it mutates in place. *)
Record bstate := mkB {
  b_pattern_matches : gmap string nat;
  b_seen_today : gset string;
  b_processed : gset string;
  b_project : gmap string nat
}.

(** State of one pass of the [while True] loop: the mutated stores and
    the pass-local [new_matches_by_pattern] and [new_total_messages]. *)
Record pstate := mkP {
  p_store : store;
  p_new_matches : gmap string nat;
  p_new_total : nat
}.

Section Engine.

Variable cfg : config.

Definition matched_patterns (text : string) : list string :=
  filter (fun n => pattern_matches_text cfg n text = true) (PATTERNS cfg).

(** Modelled from the spec: [process_message_entry] of [claude_counter]
    (not part of the sources).  Section 4.1/6: only entries of the
    tracked role ("assistant" for this watcher); [message_id] is
    [uuid], falling back to [requestId]; entries without an id or a
    usable timestamp are skipped; the text blocks are returned in order
    with the patterns matching each of them. *)
Definition process_message_entry (e : entry) : option result :=
  if String.eqb (etype e) "assistant" then
    let id := if String.eqb (uuid e) "" then requestId e else uuid e in
    if String.eqb id "" then None else
    match timestamp e with
    | TsAt d => Some (mkResult id d (map (fun t => (t, matched_patterns t)) (content e)))
    | _ => None
    end
  else None.

(** ** Directory scan skeleton

    [for project_dir in iterdir(): if is_dir and not name.startswith("."):
       for jsonl_file in glob: try: with open(..): for line in f: try: ...
       except: continue / except: pass].  The per-line body is [step]; an
    undecodable line raises out of the iteration and the outer
    [except: pass] abandons the rest of that file.  (Text-mode reading
    decodes in buffered chunks, so lines of the same chunk before the bad
    one may already be lost too; the model keeps them.) *)
Fixpoint scan_file {A} (step : A -> line -> A) (a : A) (ls : list line) : A :=
  match ls with
  | [] => a
  | LBadUtf8 :: _ => a
  | l :: ls' => scan_file step (step a l) ls'
  end.

Definition visible (pd : projdir) : bool :=
  pd_is_dir pd && negb (String.prefix "." (pd_name pd)).

Definition scan_dirs {A} (step : string -> A -> line -> A) (a : A)
    (ps : list projdir) : A :=
  fold_left (fun a pd =>
    if visible pd then
      fold_left (scan_file (step (get_project_display_name cfg (pd_name pd))))
        (pd_files pd) a
    else a) ps a.

(** Python's [d[k] += 1] after [if k not in d: d[k] = 0]. *)
Definition incr (k : string) (m : gmap string nat) : gmap string nat :=
  <[k := default 0 (m !! k) + 1]> m.

(** [message_patterns = set(); message_patterns.update(names)] for each
    block: the union of the names, each once. *)
Definition add_names (acc : list string) (ns : list string) : list string :=
  fold_left (fun acc n => if decide (n ∈ acc) then acc else app acc [n]) ns acc.

Definition message_patterns (blocks : list (string * list string)) : list string :=
  fold_left (fun acc b => add_names acc b.2) blocks [].

End Engine.

(** ** [backfill_today_total_messages] *)

Section Backfill.

Variable cfg : config.
Variable today_utc : string.

(** The body of the inner [try] of [backfill_today_total_messages]. *)
Definition backfill_total_step (seen : gset string) (l : line) : gset string :=
  match l with
  | LJson e =>
      if String.eqb (etype e) "assistant" then
        let id := if String.eqb (uuid e) "" then requestId e else uuid e in
        if String.eqb id "" then seen else
        match timestamp e with
        | TsAt d =>
            if String.eqb d today_utc && negb (bool_decide (id ∈ seen))
            then {[id]} ∪ seen else seen
        | _ => seen
        end
      else seen
  | _ => seen
  end.

Definition backfill_today_total_messages (fs : fsys) : nat :=
  match fs with
  | None => 0
  | Some ps => size (scan_dirs cfg (fun _ => backfill_total_step) ∅ ps)
  end.

(** ** [backfill_today_patterns] *)

Definition backfill_count (project_name : string) (b : bstate) (pname : string)
    : bstate :=
  mkB (incr pname (b_pattern_matches b)) (b_seen_today b) (b_processed b)
    (if String.eqb pname "absolutely" then incr project_name (b_project b)
     else b_project b).

Definition backfill_pattern_step (project_name : string) (b : bstate) (l : line)
    : bstate :=
  match l with
  | LJson e =>
      match process_message_entry cfg e with
      | None => b
      | Some r =>
          if negb (String.eqb (date_str r) today_utc) then b
          else if bool_decide (msg_id r ∈ b_seen_today b) then b
          else
            let b := mkB (b_pattern_matches b) ({[msg_id r]} ∪ b_seen_today b)
                         ({[msg_id r]} ∪ b_processed b) (b_project b) in
            fold_left (backfill_count project_name) (message_patterns (text_blocks r)) b
      end
  | _ => b
  end.

(** [pattern_matches = {name: 0 for name in PATTERNS}]. *)
Definition zero_counts (names : list string) : gmap string nat :=
  list_to_map (map (fun n => (n, 0)) names).

(** Returns [pattern_matches] and the mutated [processed_ids] and
    [project_counts]. *)
Definition backfill_today_patterns (processed : gset string)
    (project : gmap string nat) (fs : fsys)
    : gmap string nat * gset string * gmap string nat :=
  let b0 := mkB (zero_counts (PATTERNS cfg)) ∅ processed project in
  match fs with
  | None => (b_pattern_matches b0, processed, project)
  | Some ps =>
      let b := scan_dirs cfg backfill_pattern_step b0 ps in
      (b_pattern_matches b, b_processed b, b_project b)
  end.

End Backfill.

(** ** The steady-state loop of [main] *)

Section Steady.

Variable cfg : config.

(** One iteration of [for pattern_name in message_patterns:].  The dict
    [pattern_counts] has a key for every name of [PATTERNS] (it is built
    by a comprehension over [PATTERNS]) and matched names come from
    [PATTERNS], so the [default ∅] stands for a lookup that cannot miss. *)
Definition steady_count (project_name date : string) (p : pstate) (pname : string)
    : pstate :=
  let s := p_store p in
  mkP (mkStore (processed_ids s)
         (if String.eqb pname "absolutely" then incr project_name (project_counts s)
          else project_counts s)
         (<[pname := incr date (default ∅ (pattern_counts s !! pname))]> (pattern_counts s))
         (total_messages_counts s))
      (incr pname (p_new_matches p)) (p_new_total p).

(** The body of the inner [try] of the loop.  Blocks with no match add
    nothing to [message_patterns], so the [if matched_patterns:] guard
    is the plain union. *)
Definition steady_step (project_name : string) (p : pstate) (l : line) : pstate :=
  match l with
  | LJson e =>
      match process_message_entry cfg e with
      | None => p
      | Some r =>
          let s := p_store p in
          if bool_decide (msg_id r ∈ processed_ids s) then p
          else
            let s1 := mkStore ({[msg_id r]} ∪ processed_ids s) (project_counts s)
                        (pattern_counts s) (incr (date_str r) (total_messages_counts s)) in
            fold_left (steady_count project_name (date_str r))
              (message_patterns (text_blocks r)) (mkP s1 (p_new_matches p) (S (p_new_total p)))
      end
  | _ => p
  end.

(** [{name: counts.get(today_utc, 0) for name, counts in pattern_counts.items()}] *)
Definition today_snapshot (s : store) (today : string) : list (string * nat) :=
  map (fun n => (n, default 0 (default ∅ (pattern_counts s !! n) !! today)))
    (PATTERNS cfg).

(** The "Save all state" block. *)
Definition save_all (s : store) : list event :=
  [SaveProject (project_counts s); SaveProcessed (processed_ids s)] ++
  map (fun n => SavePattern n (default ∅ (pattern_counts s !! n))) (PATTERNS cfg) ++
  [SaveTotal (total_messages_counts s)].

(** Modelled from the spec: [upload_to_api] of [claude_counter] (not part
    of the sources), the Reporting Sink of section 6: one network call,
    whose outcome [ok] comes from the environment; it returns
    success/failure and a failure is logged. *)
Definition upload_to_api (ok : bool) (url : string) (secret : option string)
    (date : string) (pats : list (string * nat)) (total : nat) : list event * bool :=
  (Upload url secret date pats total :: (if ok then [] else [Say "upload failed"]), ok).

(** The upload block of a pass, with the success message of [main]. *)
Definition report (api_url : string) (api_secret : option string) (today : string)
    (upload_ok : bool) (s : store) : list event :=
  if String.eqb api_url "" then [] else
  let '(ev, ok) := upload_to_api upload_ok api_url api_secret today
                     (today_snapshot s today)
                     (default 0 (total_messages_counts s !! today)) in
  ev ++ (if ok then [Say "Uploaded to API"] else []).

(** One pass of [while True]: the scan, then saving and reporting when
    something new was found.  [today] is [get_utc_today()] at the upload. *)
Definition pass_scan (ps : list projdir) (s : store) : pstate :=
  scan_dirs cfg steady_step (mkP s (zero_counts (PATTERNS cfg)) 0) ps.

(** [any(new_matches_by_pattern.values()) or new_total_messages > 0] *)
Definition found_activity (p : pstate) : bool :=
  existsb (fun n => Nat.ltb 0 (default 0 (p_new_matches p !! n))) (PATTERNS cfg)
  || Nat.ltb 0 (p_new_total p).

Definition steady_pass (api_url : string) (api_secret : option string)
    (today : string) (ps : list projdir) (upload_ok : bool) (s : store)
    : store * list event :=
  let p := pass_scan ps s in
  let s' := p_store p in
  if found_activity p
  then (s', save_all s' ++ report api_url api_secret today upload_ok s')
  else (s', []).

(** Successive passes, each with the UTC date of its upload, the
    directory snapshot it scans and the outcome of its upload. *)
Fixpoint run_passes (api_url : string) (api_secret : option string)
    (inputs : list (string * list projdir * bool)) (s : store) : store * list event :=
  match inputs with
  | [] => (s, [])
  | (today, ps, ok) :: rest =>
      let '(s1, e1) := steady_pass api_url api_secret today ps ok s in
      let '(s2, e2) := run_passes api_url api_secret rest s1 in
      (s2, e1 ++ e2)
  end.

End Steady.

(** ** Command line ([for i, arg in enumerate(sys.argv)] in [main]; the
    same loop appears in scripts/prompt_words/watcher.py).  [argv]
    includes [sys.argv[0]].  Returns [(api_url, api_secret)]. *)
Fixpoint parse_args (argv : list string) (api_url : string)
    (api_secret : option string) : string * option string :=
  match argv with
  | [] => (api_url, api_secret)
  | arg :: rest =>
      if String.eqb arg "--upload" && negb (bool_decide (rest = [])) then
        match rest with
        | u :: rest' =>
            (u, match rest' with
                | s :: _ => if String.prefix "--" s then api_secret else Some s
                | [] => api_secret
                end)
        | [] => (api_url, api_secret)
        end
      else if String.eqb arg "--secret" then
        match rest with
        | v :: _ => parse_args rest api_url (Some v)
        | [] => parse_args rest api_url api_secret
        end
      else parse_args rest api_url api_secret
  end.

Definition parse_argv (SERVER_URL : string) (argv : list string) : string * option string :=
  parse_args argv SERVER_URL None.

(** ** Start-up of [main] *)

(** What the [load_*] functions return (a missing or unparsable file
    already replaced by the empty default). *)
Record loaded := mkLoaded {
  ld_processed : gset string;
  ld_project : gmap string nat;
  ld_pattern : string -> gmap string nat;
  ld_total : gmap string nat
}.

Section Startup.

Variable cfg : config.

Definition initial_store (ld : loaded) : store :=
  mkStore (ld_processed ld) (ld_project ld)
    (list_to_map (map (fun n => (n, ld_pattern ld n)) (PATTERNS cfg)))
    (ld_total ld).

(** One iteration of [for pattern_name, count in
    backfill_pattern_matches.items(): if count > 0: ...]. *)
Definition apply_backfill (today : string) (bp : gmap string nat)
    (acc : gmap string (gmap string nat) * list event) (n : string)
    : gmap string (gmap string nat) * list event :=
  let '(pc, ev) := acc in
  let count := default 0 (bp !! n) in
  if Nat.ltb 0 count then
    let m := <[today := count]> (default ∅ (pc !! n)) in
    (<[n := m]> pc, ev ++ [SavePattern n m])
  else (pc, ev).

(** The start-up upload block of [main]. *)
Definition startup_report (api_url : string) (api_secret : option string)
    (today : string) (upload_ok : bool) (s : store) : list event :=
  if String.eqb api_url "" then [] else
  let '(ev, ok) := upload_to_api upload_ok api_url api_secret today
                     (today_snapshot cfg s today)
                     (default 0 (total_messages_counts s !! today)) in
  ev ++ [Say (if ok then "Upload successful" else "Upload failed")].

(** [main] up to the [while True] loop: the state it enters the loop
    with, the effects so far, and whether the loop starts. *)
Definition main_startup (SERVER_URL : string) (argv : list string)
    (today : string) (fs : fsys) (ld : loaded) (upload_ok : bool)
    : store * list event * bool :=
  let '(api_url, api_secret) := parse_argv SERVER_URL argv in
  let s0 := initial_store ld in
  let total := <[today := backfill_today_total_messages cfg today fs]>
                 (total_messages_counts s0) in
  let ev1 := [SaveTotal total] in
  let '(bp, processed, project) :=
      backfill_today_patterns cfg today (processed_ids s0) ∅ fs in
  let '(pc, ev2) := fold_left (apply_backfill today bp) (PATTERNS cfg)
                      (pattern_counts s0, []) in
  let s1 := mkStore processed project pc total in
  let ev3 := [SaveProcessed processed; SaveProject project] in
  let ev4 := startup_report api_url api_secret today upload_ok s1 in
  match fs with
  | None => (s1, ev1 ++ ev2 ++ ev3 ++ ev4 ++
                 [Say "Error: Claude projects directory not found"], false)
  | Some _ => (s1, ev1 ++ ev2 ++ ev3 ++ ev4, true)
  end.

(** The whole run of [main] until it is interrupted: start-up, then the
    given passes over the (existing) projects root. *)
Definition main (SERVER_URL : string) (argv : list string) (today : string)
    (fs : fsys) (ld : loaded) (upload_ok : bool)
    (passes : list (string * list projdir * bool)) : store * list event :=
  let '(s1, ev, go) := main_startup SERVER_URL argv today fs ld upload_ok in
  if go then
    let '(api_url, api_secret) := parse_argv SERVER_URL argv in
    let '(s2, ev2) := run_passes cfg api_url api_secret passes s1 in
    (s2, ev ++ ev2)
  else (s1, ev).

End Startup.

(** ** Supervisor: [WatcherProcess] of scripts/unified_watcher.py

    [time.time()] values are taken as whole seconds; [alive] is what
    [is_alive()] reports for the current subprocess. *)
Module Supervisor.

Record watcher := mkWatcher {
  restart_count : nat;
  max_restarts : nat;
  restart_window : Z;
  restart_times : list Z;
  alive : bool
}.

(** [__init__] followed by [start()]. *)
Definition started : watcher := mkWatcher 0 5 60 [] true.

(** [check_and_restart()] at [time.time() = current_time]: the result and
    the watcher afterwards ([start()] makes the new process alive). *)
Definition check_and_restart (current_time : Z) (w : watcher) : bool * watcher :=
  if alive w then (false, w) else
  let times := filter (fun t => Z.ltb (current_time - t)%Z (restart_window w))
                 (restart_times w) in
  if Nat.leb (max_restarts w) (length times) then
    (false, mkWatcher (restart_count w) (max_restarts w) (restart_window w) times false)
  else
    (true, mkWatcher (S (restart_count w)) (max_restarts w) (restart_window w)
             (times ++ [current_time]) true).

(** The process exits (crashes). *)
Definition crash (w : watcher) : watcher :=
  mkWatcher (restart_count w) (max_restarts w) (restart_window w) (restart_times w) false.

(** The monitoring loop of [main] for one watcher: before each check, at
    [time.time() = t], the process may have exited ([exited]); then
    [check_and_restart()] runs.  Returns the times of the restarts, in
    order, and the watcher at the end. *)
Fixpoint monitor (w : watcher) (checks : list (bool * Z)) : list Z * watcher :=
  match checks with
  | [] => ([], w)
  | (exited, t) :: rest =>
      let w1 := if exited then crash w else w in
      let '(restarted, w2) := check_and_restart t w1 in
      let '(R, w3) := monitor w2 rest in
      ((if restarted then [t] else []) ++ R, w3)
  end.

End Supervisor.

(** ** Arguments handed to the watchers ([WatcherProcess.start])

    [for i, arg in enumerate(sys.argv[1:], 1): if arg in ("--secret",
    "--upload") or (i > 1 and sys.argv[i-1] in ("--secret", "--upload")):
    cmd.append(arg)]; [prev] is [sys.argv[i-1]] when [i > 1]. *)
Definition is_passed_flag (a : string) : bool :=
  String.eqb a "--secret" || String.eqb a "--upload".

Fixpoint pass_through (prev : option string) (args : list string) : list string :=
  match args with
  | [] => []
  | a :: rest =>
      (if is_passed_flag a ||
          match prev with Some p => is_passed_flag p | None => false end
       then [a] else []) ++ pass_through (Some a) rest
  end.

(** [cmd = [sys.executable, str(self.script_path)] + passed arguments];
    the child's [sys.argv] is [cmd] without the interpreter. *)
Definition start_cmd (executable script : string) (argv : list string) : list string :=
  executable :: script :: match argv with [] => [] | _ :: args => pass_through None args end.

(** ** Store file names: [os.path.join(DATA_DIR, ...)] *)

(** [s.endswith(suffix)] *)
Definition ends_with (suffix s : string) : bool :=
  String.eqb (String.substring (String.length s - String.length suffix) (String.length suffix) s)
    suffix.

(** [posixpath.join(a, b)] for two components. *)
Definition path_join (a b : string) : string :=
  if String.prefix "/" b then b
  else if String.eqb a "" || ends_with "/" a then a ++ b
  else a ++ "/" ++ b.

Definition PROJECT_COUNTS_FILE (DATA_DIR : string) : string :=
  path_join DATA_DIR "project_counts.json".

Definition PROCESSED_IDS_FILE (DATA_DIR : string) : string :=
  path_join DATA_DIR "processed_ids.json".

(** The file of [load_pattern_counts] / [save_pattern_counts]. *)
Definition pattern_counts_file (DATA_DIR pattern_name : string) : string :=
  path_join DATA_DIR ("daily_" ++ pattern_name ++ "_counts.json").

(** The file of [load_total_messages_counts] / [save_total_messages_counts]. *)
Definition total_messages_file (DATA_DIR : string) : string :=
  path_join DATA_DIR "daily_total_messages.json".

(** ** A concrete configuration for the examples

    [contains pat s]: [pat] occurs in [s] (a stand-in for the compiled
    regular expression of a literal pattern). *)
Fixpoint contains (pat s : string) : bool :=
  match s with
  | EmptyString => String.eqb pat ""
  | String c s' => String.prefix pat s || contains pat s'
  end.

Definition demo_cfg : config :=
  mkConfig ["absolutely"; "right"] contains (fun name => name).

(** An assistant message with id [id], UTC date [date] and text blocks. *)
Definition demo_line (id date : string) (texts : list string) : line :=
  LJson (mkEntry "assistant" id "" (TsAt date) texts).

Definition demo_entry : entry :=
  mkEntry "assistant" "m1" "" (TsAt "2024-01-01")
    ["You are absolutely right"; "absolutely"; "right again"].

Definition demo_result : result :=
  mkResult "m1" "2024-01-01"
    [("You are absolutely right", ["absolutely"; "right"]);
     ("absolutely", ["absolutely"]); ("right again", ["right"])].

Definition empty_store : store := mkStore ∅ ∅ ∅ ∅.



(** Stores left by an earlier run that counted [m1] on 2024-01-01. *)
Definition demo_prev_run : loaded :=
  mkLoaded {["m1"]} {["proj" := 1]}
    (fun name => if String.eqb name "absolutely" then {["2024-01-01" := 1]} else ∅)
    {["2024-01-01" := 1]}.

(** Stores of an earlier run: 5 "absolutely" matches on 2024-01-02. *)
Definition demo_stale : loaded :=
  mkLoaded ∅ ∅
    (fun name => if String.eqb name "absolutely" then {["2024-01-02" := 5]} else ∅)
    ∅.

(** Three messages of 2024-01-02 saying "absolutely"; then a fourth. *)
Definition demo_three : list projdir :=
  [mkProj "proj" true
     [[demo_line "a1" "2024-01-02" ["absolutely"];
       demo_line "a2" "2024-01-02" ["absolutely"];
       demo_line "a3" "2024-01-02" ["absolutely"]]]].

Definition demo_four : list projdir :=
  [mkProj "proj" true
     [[demo_line "a1" "2024-01-02" ["absolutely"];
       demo_line "a2" "2024-01-02" ["absolutely"];
       demo_line "a3" "2024-01-02" ["absolutely"];
       demo_line "a4" "2024-01-02" ["absolutely"]]]].

(** A crash of the watched process followed by the monitoring loop's check. *)
Definition crash_then_check (t : Z) (w : Supervisor.watcher) : bool * Supervisor.watcher :=
  Supervisor.check_and_restart t (Supervisor.crash w).

(** * Proofs *)

(** Value of a counter, [d.get(k, 0)]. *)
Definition count_of (m : gmap string nat) (k : string) : nat := default 0 (m !! k).

(** [pattern_counts[q].get(d, 0)] *)
Definition cnt (s : store) (q d : string) : nat :=
  count_of (default ∅ (pattern_counts s !! q)) d.

(** ** Scans are folds over the reachable lines *)

Fixpoint file_lines (ls : list line) : list line :=
  match ls with
  | [] => []
  | LBadUtf8 :: _ => []
  | l :: ls' => l :: file_lines ls'
  end.

Definition visible_lines (cfg : config) (ps : list projdir) : list (string * line) :=
  concat (map (fun pd =>
    if visible pd then
      concat (map (fun f => map (fun l => (get_project_display_name cfg (pd_name pd), l))
                              (file_lines f)) (pd_files pd))
    else []) ps).

Definition run_lines {A} (step : string -> A -> line -> A) (a : A)
    (L : list (string * line)) : A :=
  fold_left (fun a nl => step nl.1 a nl.2) L a.

Lemma run_lines_app {A} (step : string -> A -> line -> A) a L1 L2 :
  run_lines step a (L1 ++ L2) = run_lines step (run_lines step a L1) L2.
Proof. unfold run_lines. apply fold_left_app. Qed.

Lemma run_lines_map {A} (step : string -> A -> line -> A) (g : line -> string * line) a ls :
  run_lines step a (map g ls) = fold_left (fun a l => step (g l).1 a (g l).2) ls a.
Proof. revert a. induction ls as [|l ls IH]; intros a; [done|]. apply IH. Qed.

Lemma scan_file_lines {A} (step : A -> line -> A) n a ls :
  scan_file step a ls = run_lines (fun _ => step) a (map (fun l => (n, l)) (file_lines ls)).
Proof.
  revert a. induction ls as [|l ls IH]; intros a; [done|].
  destruct l; simpl; [done| |]; apply IH.
Qed.

Lemma scan_dirs_lines {A} cfg (step : string -> A -> line -> A) a ps :
  scan_dirs cfg step a ps = run_lines step a (visible_lines cfg ps).
Proof.
  unfold scan_dirs, visible_lines. revert a.
  induction ps as [|pd ps IH]; intros a; [done|].
  simpl. rewrite run_lines_app, <- IH. f_equal.
  destruct (visible pd); [|done].
  generalize (pd_files pd) as fs. intros fs. revert a.
  induction fs as [|f fs IHf]; intros a; [done|].
  simpl. rewrite run_lines_app, <- IHf. f_equal.
  rewrite (scan_file_lines _ (get_project_display_name cfg (pd_name pd))).
  rewrite !run_lines_map. done.
Qed.

(** ** Counters *)

Lemma count_of_incr k m k' :
  count_of (incr k m) k' = count_of m k' + (if decide (k = k') then 1 else 0).
Proof.
  unfold count_of, incr. destruct (decide (k = k')) as [->|Hne].
  - rewrite lookup_insert_eq. simpl. done.
  - rewrite lookup_insert_ne by done. lia.
Qed.

Lemma count_of_insert k v m k' :
  count_of (<[k := v]> m) k' = if decide (k = k') then v else count_of m k'.
Proof.
  unfold count_of. destruct (decide (k = k')) as [->|Hne].
  - rewrite lookup_insert_eq. done.
  - rewrite lookup_insert_ne by done. done.
Qed.

Lemma count_of_zero_counts names k : count_of (zero_counts names) k = 0.
Proof.
  unfold count_of, zero_counts. induction names as [|n names IH]; [done|].
  simpl. destruct (decide (n = k)) as [->|Hne].
  - rewrite lookup_insert_eq. done.
  - rewrite lookup_insert_ne by done. done.
Qed.

(** ** The set of patterns of a message *)

Lemma add_names_spec acc ns :
  NoDup acc ->
  NoDup (add_names acc ns) /\ (forall x, x ∈ add_names acc ns <-> x ∈ acc \/ x ∈ ns).
Proof.
  unfold add_names. revert acc. induction ns as [|n ns IH]; intros acc Hnd; simpl.
  - split; [done|]. intros x. set_solver.
  - case_decide as Hin.
    + destruct (IH acc Hnd) as [H1 H2]. split; [done|]. intros x. rewrite H2.
      set_solver.
    + assert (NoDup (acc ++ [n])) as Hnd'.
      { apply NoDup_app. split; [done|]. split; [|apply NoDup_singleton].
        intros x Hx Hx'. apply list_elem_of_singleton in Hx'. subst. done. }
      destruct (IH _ Hnd') as [H1 H2]. split; [done|]. intros x. rewrite H2.
      rewrite elem_of_app, list_elem_of_singleton. set_solver.
Qed.

Lemma message_patterns_spec blocks :
  NoDup (message_patterns blocks) /\
  (forall q, q ∈ message_patterns blocks <-> exists b, b ∈ blocks /\ q ∈ b.2).
Proof.
  unfold message_patterns.
  assert (forall acc, NoDup acc ->
    NoDup (fold_left (fun acc b => add_names acc b.2) blocks acc) /\
    (forall q, q ∈ fold_left (fun acc b => add_names acc b.2) blocks acc <->
               q ∈ acc \/ exists b, b ∈ blocks /\ q ∈ b.2)) as H.
  { induction blocks as [|b blocks IH]; intros acc Hnd; simpl.
    - split; [done|]. intros q. split; [auto|]. intros [?|[? [Hb _]]]; [done|].
      inversion Hb.
    - destruct (add_names_spec acc b.2 Hnd) as [H1 H2].
      destruct (IH _ H1) as [H3 H4]. split; [done|]. intros q. rewrite H4, H2.
      split.
      + intros [[?|?]|[b' [? ?]]]; [by left|right; exists b; split; [left|done]|].
        right. exists b'. split; [right|]; done.
      + intros [?|[b' [Hb' ?]]]; [by left; left|].
        apply elem_of_cons in Hb' as [->|Hb']; [by left; right|].
        right. eauto. }
  destruct (H [] (NoDup_nil_2)) as [H1 H2]. split; [done|].
  intros q. rewrite H2. set_solver.
Qed.

(** ** Counting the patterns of one message *)

Lemma cnt_insert_incr s pname date q d ids pj tot :
  cnt (mkStore ids pj (<[pname := incr date (default ∅ (pattern_counts s !! pname))]>
                         (pattern_counts s)) tot) q d
  = cnt s q d + (if decide (q = pname /\ d = date) then 1 else 0).
Proof.
  unfold cnt. simpl. destruct (decide (pname = q)) as [<-|Hne].
  - rewrite lookup_insert_eq. simpl. rewrite count_of_incr.
    repeat case_decide; naive_solver lia.
  - rewrite lookup_insert_ne by done. case_decide; naive_solver lia.
Qed.

Section SteadyCount.

Variables (project_name date : string).

Lemma steady_count_fold ns p :
  NoDup ns ->
  let p' := fold_left (steady_count project_name date) ns p in
  processed_ids (p_store p') = processed_ids (p_store p) /\
  total_messages_counts (p_store p') = total_messages_counts (p_store p) /\
  p_new_total p' = p_new_total p /\
  (forall q d, cnt (p_store p') q d =
     cnt (p_store p) q d + (if decide (q ∈ ns /\ d = date) then 1 else 0)) /\
  (forall k, count_of (project_counts (p_store p')) k =
     count_of (project_counts (p_store p)) k
     + (if decide ("absolutely" ∈ ns /\ k = project_name) then 1 else 0)) /\
  (forall q, count_of (p_new_matches p') q =
     count_of (p_new_matches p) q + (if decide (q ∈ ns) then 1 else 0)).
Proof.
  revert p. induction ns as [|n ns IH]; intros p Hnd; simpl.
  - repeat split; intros; repeat case_decide; set_solver by lia.
  - apply NoDup_cons in Hnd as [Hn Hnd].
    destruct (IH (steady_count project_name date p n) Hnd)
      as (H1 & H2 & H3 & H4 & H5 & H6).
    repeat split.
    + rewrite H1. done.
    + rewrite H2. done.
    + rewrite H3. done.
    + intros q d. rewrite H4. unfold steady_count at 1. simpl.
      rewrite cnt_insert_incr.
      repeat case_decide; rewrite ?elem_of_cons in *; naive_solver lia.
    + intros k. rewrite H5. unfold steady_count at 1. simpl.
      destruct (String.eqb_spec n "absolutely") as [->|Hne].
      * rewrite count_of_incr.
        repeat case_decide; rewrite ?elem_of_cons in *; naive_solver lia.
      * repeat case_decide; rewrite ?elem_of_cons in *; naive_solver lia.
    + intros q. rewrite H6. unfold steady_count at 1. simpl.
      rewrite count_of_incr.
      repeat case_decide; rewrite ?elem_of_cons in *; naive_solver lia.
Qed.

End SteadyCount.

Section BackfillCount.

Variable (project_name : string).

Lemma backfill_count_fold ns b :
  NoDup ns ->
  let b' := fold_left (backfill_count project_name) ns b in
  b_seen_today b' = b_seen_today b /\
  b_processed b' = b_processed b /\
  (forall q, count_of (b_pattern_matches b') q =
     count_of (b_pattern_matches b) q + (if decide (q ∈ ns) then 1 else 0)) /\
  (forall k, count_of (b_project b') k =
     count_of (b_project b) k
     + (if decide ("absolutely" ∈ ns /\ k = project_name) then 1 else 0)).
Proof.
  revert b. induction ns as [|n ns IH]; intros b Hnd; simpl.
  - repeat split; intros; repeat case_decide; set_solver by lia.
  - apply NoDup_cons in Hnd as [Hn Hnd].
    destruct (IH (backfill_count project_name b n) Hnd) as (H1 & H2 & H3 & H4).
    repeat split.
    + rewrite H1. done.
    + rewrite H2. done.
    + intros q. rewrite H3. unfold backfill_count at 1. simpl.
      rewrite count_of_incr.
      repeat case_decide; rewrite ?elem_of_cons in *; naive_solver lia.
    + intros k. rewrite H4. unfold backfill_count at 1. simpl.
      destruct (String.eqb_spec n "absolutely") as [->|Hne].
      * rewrite count_of_incr.
        repeat case_decide; rewrite ?elem_of_cons in *; naive_solver lia.
      * repeat case_decide; rewrite ?elem_of_cons in *; naive_solver lia.
Qed.

End BackfillCount.

(** Whether some text block of a message matched pattern [q]. *)
Definition has_pattern (r : result) (q : string) : bool :=
  existsb (fun b => bool_decide (q ∈ b.2)) (text_blocks r).

Lemma message_patterns_has r q :
  q ∈ message_patterns (text_blocks r) <-> has_pattern r q = true.
Proof.
  destruct (message_patterns_spec (text_blocks r)) as [_ H]. rewrite H.
  unfold has_pattern. rewrite existsb_exists. split.
  - intros [b [Hb Hq]]. exists b. split; [by apply list_elem_of_In|].
    by apply bool_decide_eq_true.
  - intros [b [Hb Hq]]. exists b. split; [by apply list_elem_of_In|].
    by apply bool_decide_eq_true in Hq.
Qed.

(** ** One line of the steady-state loop *)

Section SteadyStep.

Variables (cfg : config) (project_name : string).

Lemma steady_step_seen p e r :
  process_message_entry cfg e = Some r ->
  msg_id r ∈ processed_ids (p_store p) ->
  steady_step cfg project_name p (LJson e) = p.
Proof.
  intros He Hin. unfold steady_step. rewrite He.
  rewrite bool_decide_eq_true_2 by done. done.
Qed.

Lemma steady_step_fresh p e r :
  process_message_entry cfg e = Some r ->
  msg_id r ∉ processed_ids (p_store p) ->
  let p' := steady_step cfg project_name p (LJson e) in
  processed_ids (p_store p') = {[msg_id r]} ∪ processed_ids (p_store p) /\
  p_new_total p' = S (p_new_total p) /\
  (forall d, count_of (total_messages_counts (p_store p')) d =
     count_of (total_messages_counts (p_store p)) d
     + (if decide (d = date_str r) then 1 else 0)) /\
  (forall q d, cnt (p_store p') q d =
     cnt (p_store p) q d + (if decide (has_pattern r q = true /\ d = date_str r) then 1 else 0)) /\
  (forall k, count_of (project_counts (p_store p')) k =
     count_of (project_counts (p_store p)) k
     + (if decide (has_pattern r "absolutely" = true /\ k = project_name) then 1 else 0)) /\
  (forall q, count_of (p_new_matches p') q =
     count_of (p_new_matches p) q + (if decide (has_pattern r q = true) then 1 else 0)).
Proof.
  intros He Hin p'. subst p'. unfold steady_step. rewrite He.
  rewrite bool_decide_eq_false_2 by done.
  destruct (message_patterns_spec (text_blocks r)) as [Hnd _].
  destruct (steady_count_fold project_name (date_str r) _
              (mkP (mkStore ({[msg_id r]} ∪ processed_ids (p_store p))
                     (project_counts (p_store p)) (pattern_counts (p_store p))
                     (incr (date_str r) (total_messages_counts (p_store p))))
                   (p_new_matches p) (S (p_new_total p))) Hnd)
    as (H1 & H2 & H3 & H4 & H5 & H6).
  repeat split.
  - rewrite H1. done.
  - rewrite H3. done.
  - intros d. rewrite H2. simpl. rewrite count_of_incr.
    repeat case_decide; naive_solver lia.
  - intros q d. rewrite H4. unfold cnt at 2. simpl. fold (cnt (p_store p) q d).
    pose proof (message_patterns_has r q).
    repeat case_decide; naive_solver lia.
  - intros k. rewrite H5. simpl.
    pose proof (message_patterns_has r "absolutely").
    repeat case_decide; naive_solver lia.
  - intros q. rewrite H6. simpl. pose proof (message_patterns_has r q).
    repeat case_decide; naive_solver lia.
Qed.

End SteadyStep.

(** ** One line of [backfill_today_patterns] *)

Section BackfillStep.

Variables (cfg : config) (today : string) (project_name : string).

Lemma backfill_step_seen b e r :
  process_message_entry cfg e = Some r ->
  msg_id r ∈ b_seen_today b ->
  backfill_pattern_step cfg today project_name b (LJson e) = b.
Proof.
  intros He Hin. unfold backfill_pattern_step. rewrite He.
  destruct (String.eqb (date_str r) today); simpl; [|done].
  rewrite bool_decide_eq_true_2 by done. done.
Qed.

Lemma backfill_step_fresh b e r :
  process_message_entry cfg e = Some r ->
  date_str r = today ->
  msg_id r ∉ b_seen_today b ->
  let b' := backfill_pattern_step cfg today project_name b (LJson e) in
  b_seen_today b' = {[msg_id r]} ∪ b_seen_today b /\
  b_processed b' = {[msg_id r]} ∪ b_processed b /\
  (forall q, count_of (b_pattern_matches b') q =
     count_of (b_pattern_matches b) q + (if decide (has_pattern r q = true) then 1 else 0)) /\
  (forall k, count_of (b_project b') k =
     count_of (b_project b) k
     + (if decide (has_pattern r "absolutely" = true /\ k = project_name) then 1 else 0)).
Proof.
  intros He Hd Hin b'. subst b'. unfold backfill_pattern_step. rewrite He, Hd.
  rewrite String.eqb_refl. simpl.
  rewrite bool_decide_eq_false_2 by done.
  destruct (message_patterns_spec (text_blocks r)) as [Hnd _].
  destruct (backfill_count_fold project_name _
              (mkB (b_pattern_matches b) ({[msg_id r]} ∪ b_seen_today b)
                   ({[msg_id r]} ∪ b_processed b) (b_project b)) Hnd)
    as (H1 & H2 & H3 & H4).
  repeat split.
  - rewrite H1. done.
  - rewrite H2. done.
  - intros q. rewrite H3. simpl. pose proof (message_patterns_has r q).
    repeat case_decide; naive_solver lia.
  - intros k. rewrite H4. simpl.
    pose proof (message_patterns_has r "absolutely").
    repeat case_decide; naive_solver lia.
Qed.

End BackfillStep.

(** ** C4 *)

(** C4: a message counted by the steady-state loop adds exactly 1 to
    the total-message counter of its date, and exactly 1 to the counter
    of every pattern that matches at least one of its text blocks (0 to
    the others), however many blocks match and however many patterns
    match; the backfill pass likewise adds exactly 1 per matching pattern
    to its tally for a message of today. *)
Theorem C4_pattern_independence (cfg : config) (project_name today : string)
    (p : pstate) (b : bstate) (e : entry) (r : result) :
  process_message_entry cfg e = Some r ->
  msg_id r ∉ processed_ids (p_store p) ->
  let p' := steady_step cfg project_name p (LJson e) in
  count_of (total_messages_counts (p_store p')) (date_str r) =
    count_of (total_messages_counts (p_store p)) (date_str r) + 1 /\
  (forall q, cnt (p_store p') q (date_str r) =
     cnt (p_store p) q (date_str r) + (if has_pattern r q then 1 else 0)) /\
  (forall q d, d <> date_str r -> cnt (p_store p') q d = cnt (p_store p) q d) /\
  (date_str r = today -> (msg_id r ∉ b_seen_today b) ->
   forall q, count_of (b_pattern_matches
                (backfill_pattern_step cfg today project_name b (LJson e))) q =
             count_of (b_pattern_matches b) q + (if has_pattern r q then 1 else 0)).
Proof.
  intros He Hin p'.
  destruct (steady_step_fresh cfg project_name p e r He Hin)
    as (_ & _ & Ht & Hc & _ & _).
  repeat split.
  - rewrite Ht. case_decide; [lia|done].
  - intros q. rewrite Hc. destruct (has_pattern r q); case_decide; naive_solver lia.
  - intros q d Hd. rewrite Hc. case_decide; naive_solver lia.
  - intros Hd Hs q.
    destruct (backfill_step_fresh cfg today project_name b e r He Hd Hs)
      as (_ & _ & Hq & _).
    rewrite Hq. destruct (has_pattern r q); case_decide; naive_solver lia.
Qed.

Lemma C4_pattern_independence_witness :
  process_message_entry demo_cfg demo_entry = Some demo_result /\
  (msg_id demo_result ∉ processed_ids empty_store) /\
  count_of (total_messages_counts
    (p_store (steady_step demo_cfg "proj" (mkP empty_store ∅ 0) (LJson demo_entry))))
    (date_str demo_result) = 1 /\
  cnt (p_store (steady_step demo_cfg "proj" (mkP empty_store ∅ 0) (LJson demo_entry)))
    "absolutely" (date_str demo_result) = 1 /\
  cnt (p_store (steady_step demo_cfg "proj" (mkP empty_store ∅ 0) (LJson demo_entry)))
    "right" (date_str demo_result) = 1.
Proof.
  assert (H1 : process_message_entry demo_cfg demo_entry = Some demo_result)
    by reflexivity.
  assert (H2 : msg_id demo_result ∉ processed_ids empty_store)
    by (simpl; apply not_elem_of_empty).
  destruct (C4_pattern_independence demo_cfg "proj" "2024-01-01" (mkP empty_store ∅ 0)
              (mkB ∅ ∅ ∅ ∅) demo_entry demo_result H1 H2) as (Ht & Hc & _ & _).
  split; [exact H1|]. split; [exact H2|].
  split; [rewrite Ht; reflexivity|].
  split; rewrite Hc; reflexivity.
Defined.

(** ** Ids seen so far only grow *)

Lemma steady_step_processed_grows cfg n p l :
  processed_ids (p_store p) ⊆ processed_ids (p_store (steady_step cfg n p l)).
Proof.
  destruct l as [| |e]; try done.
  destruct (process_message_entry cfg e) as [r|] eqn:He.
  - destruct (decide (msg_id r ∈ processed_ids (p_store p))) as [Hin|Hin].
    + rewrite steady_step_seen with (r := r); done.
    + destruct (steady_step_fresh cfg n p e r He Hin) as (H1 & _). rewrite H1.
      set_solver.
  - unfold steady_step. rewrite He. done.
Qed.

Lemma steady_step_processed_in cfg n p e r :
  process_message_entry cfg e = Some r ->
  msg_id r ∈ processed_ids (p_store (steady_step cfg n p (LJson e))).
Proof.
  intros He. destruct (decide (msg_id r ∈ processed_ids (p_store p))) as [Hin|Hin].
  - rewrite steady_step_seen with (r := r); done.
  - destruct (steady_step_fresh cfg n p e r He Hin) as (H1 & _). rewrite H1.
    set_solver.
Qed.

Lemma run_steady_processed_grows cfg L p :
  processed_ids (p_store p) ⊆ processed_ids (p_store (run_lines (steady_step cfg) p L)).
Proof.
  revert p. induction L as [|[n l] L IH]; intros p; [done|].
  simpl. etrans; [apply steady_step_processed_grows|]. apply IH.
Qed.

Lemma run_steady_processed_in cfg L p n e r :
  (n, LJson e) ∈ L -> process_message_entry cfg e = Some r ->
  msg_id r ∈ processed_ids (p_store (run_lines (steady_step cfg) p L)).
Proof.
  revert p. induction L as [|[n' l] L IH]; intros p Hin He;
    [by apply not_elem_of_nil in Hin|].
  simpl. apply elem_of_cons in Hin as [Heq|Hin].
  - inversion Heq; subst.
    eapply run_steady_processed_grows, steady_step_processed_in, He.
  - by apply IH.
Qed.

Lemma backfill_step_seen_grows cfg today n b l :
  b_seen_today b ⊆ b_seen_today (backfill_pattern_step cfg today n b l) /\
  b_processed b ⊆ b_processed (backfill_pattern_step cfg today n b l) /\
  (b_seen_today b ⊆ b_processed b ->
   b_seen_today (backfill_pattern_step cfg today n b l)
   ⊆ b_processed (backfill_pattern_step cfg today n b l)).
Proof.
  destruct l as [| |e]; try done.
  destruct (process_message_entry cfg e) as [r|] eqn:He.
  - destruct (String.eqb_spec (date_str r) today) as [Hd|Hd].
    + destruct (decide (msg_id r ∈ b_seen_today b)) as [Hin|Hin].
      * rewrite backfill_step_seen with (r := r); done.
      * destruct (backfill_step_fresh cfg today n b e r He Hd Hin) as (H1 & H2 & _).
        rewrite H1, H2. set_solver.
    + unfold backfill_pattern_step. rewrite He.
      destruct (String.eqb_spec (date_str r) today); [done|]. done.
  - unfold backfill_pattern_step. rewrite He. done.
Qed.

Lemma backfill_step_seen_in cfg today n b e r :
  process_message_entry cfg e = Some r -> date_str r = today ->
  msg_id r ∈ b_seen_today (backfill_pattern_step cfg today n b (LJson e)).
Proof.
  intros He Hd. destruct (decide (msg_id r ∈ b_seen_today b)) as [Hin|Hin].
  - rewrite backfill_step_seen with (r := r); done.
  - destruct (backfill_step_fresh cfg today n b e r He Hd Hin) as (H1 & _).
    rewrite H1. set_solver.
Qed.

Lemma run_backfill_grows cfg today L b :
  b_seen_today b ⊆ b_seen_today (run_lines (backfill_pattern_step cfg today) b L) /\
  b_processed b ⊆ b_processed (run_lines (backfill_pattern_step cfg today) b L) /\
  (b_seen_today b ⊆ b_processed b ->
   b_seen_today (run_lines (backfill_pattern_step cfg today) b L)
   ⊆ b_processed (run_lines (backfill_pattern_step cfg today) b L)).
Proof.
  revert b. induction L as [|[n l] L IH]; intros b; [done|]. simpl.
  destruct (backfill_step_seen_grows cfg today n b l) as (H1 & H2 & H3).
  destruct (IH (backfill_pattern_step cfg today n b l)) as (H4 & H5 & H6).
  split; [set_solver|]. split; [set_solver|]. auto.
Qed.

Lemma run_backfill_seen_in cfg today L b n e r :
  (n, LJson e) ∈ L -> process_message_entry cfg e = Some r -> date_str r = today ->
  msg_id r ∈ b_seen_today (run_lines (backfill_pattern_step cfg today) b L).
Proof.
  revert b. induction L as [|[n' l] L IH]; intros b Hin He Hd;
    [by apply not_elem_of_nil in Hin|].
  simpl. apply elem_of_cons in Hin as [Heq|Hin].
  - inversion Heq; subst.
    eapply run_backfill_grows, backfill_step_seen_in; done.
  - by apply IH.
Qed.

(** ** C2 *)




(** ** Start-up *)

Lemma cnt_initial_store cfg ld q d :
  cnt (initial_store cfg ld) q d =
  if decide (q ∈ PATTERNS cfg) then count_of (ld_pattern ld q) d else 0.
Proof.
  unfold cnt, count_of, initial_store. cbn [pattern_counts].
  generalize (PATTERNS cfg) as names.
  induction names as [|n names IH].
  - rewrite decide_False by apply not_elem_of_nil. done.
  - cbn [map]. rewrite list_to_map_cons. destruct (decide (n = q)) as [->|Hne].
    + rewrite lookup_insert_eq. simpl. rewrite decide_True; [done|].
      apply elem_of_cons. by left.
    + rewrite lookup_insert_ne by done. rewrite IH.
      repeat case_decide; rewrite ?elem_of_cons in *; naive_solver.
Qed.

Lemma apply_backfill_fold today bp names pc ev ids pj tot :
  let acc := fold_left (apply_backfill today bp) names (pc, ev) in
  (forall q d, cnt (mkStore ids pj acc.1 tot) q d =
     if decide (q ∈ names /\ d = today /\ 0 < count_of bp q) then count_of bp q
     else cnt (mkStore ids pj pc tot) q d) /\
  ((forall q, q ∈ names -> count_of bp q = 0) -> acc = (pc, ev)).
Proof.
  revert pc ev. induction names as [|n names IH]; intros pc ev; cbn [fold_left].
  - split; [|done]. intros q d. rewrite decide_False; [done|].
    intros [H _]. by apply not_elem_of_nil in H.
  - set (M := <[today := count_of bp n]> (default ∅ (pc !! n))).
    assert (Hstep : apply_backfill today bp (pc, ev) n =
                    if Nat.ltb 0 (count_of bp n) then (<[n := M]> pc, ev ++ [SavePattern n M])
                    else (pc, ev)) by reflexivity.
    rewrite Hstep. subst M.
    destruct (Nat.ltb_spec 0 (count_of bp n)) as [Hpos|Hz].
    + destruct (IH (<[n := <[today := count_of bp n]> (default ∅ (pc !! n))]> pc)
                   (ev ++ [SavePattern n (<[today := count_of bp n]> (default ∅ (pc !! n)))]))
        as [H1 _].
      split.
      * intros q d. rewrite H1. unfold cnt. simpl.
        destruct (decide (n = q)) as [->|Hne].
        -- rewrite lookup_insert_eq. simpl. rewrite count_of_insert.
           repeat case_decide; rewrite ?elem_of_cons in *; naive_solver lia.
        -- rewrite lookup_insert_ne by done.
           repeat case_decide; rewrite ?elem_of_cons in *; naive_solver lia.
      * intros Hall. exfalso. rewrite Hall in Hpos; [lia|]. apply elem_of_cons. by left.
    + assert (count_of bp n = 0) as Hz' by lia.
      destruct (IH pc ev) as [H1 H2]. split.
      * intros q d. rewrite H1.
        repeat case_decide; rewrite ?elem_of_cons in *; naive_solver lia.
      * intros Hall. apply H2. intros q Hq. apply Hall. apply elem_of_cons. by right.
Qed.

(** The state and effects of the start-up, spelled out. *)
Lemma main_startup_eq cfg SERVER_URL argv today fs ld ok :
  let bpr := backfill_today_patterns cfg today (ld_processed ld) ∅ fs in
  let total := <[today := backfill_today_total_messages cfg today fs]> (ld_total ld) in
  let acc := fold_left (apply_backfill today bpr.1.1) (PATTERNS cfg)
               (pattern_counts (initial_store cfg ld), []) in
  let s1 := mkStore bpr.1.2 bpr.2 acc.1 total in
  let ev := [SaveTotal total] ++ acc.2 ++ [SaveProcessed bpr.1.2; SaveProject bpr.2]
            ++ startup_report cfg (parse_argv SERVER_URL argv).1
                 (parse_argv SERVER_URL argv).2 today ok s1 in
  main_startup cfg SERVER_URL argv today fs ld ok =
  match fs with
  | None => (s1, ev ++ [Say "Error: Claude projects directory not found"], false)
  | Some _ => (s1, ev, true)
  end.
Proof.
  unfold main_startup. destruct (parse_argv SERVER_URL argv) as [url sec]. simpl.
  destruct (backfill_today_patterns cfg today (ld_processed ld) ∅ fs)
    as [[bp processed] project]. simpl.
  destruct (fold_left _ _ _) as [pc ev2]. simpl.
  destruct fs; [done|]. simpl. rewrite <- !app_assoc. done.
Qed.

Lemma main_eq cfg SERVER_URL argv today fs ld ok passes :
  main cfg SERVER_URL argv today fs ld ok passes =
  let '(s1, ev, go) := main_startup cfg SERVER_URL argv today fs ld ok in
  if go then
    let '(s2, ev2) := run_passes cfg (parse_argv SERVER_URL argv).1
                        (parse_argv SERVER_URL argv).2 passes s1 in
    (s2, ev ++ ev2)
  else (s1, ev).
Proof.
  unfold main. destruct (main_startup _ _ _ _ _ _ _) as [[s1 ev] go].
  destruct go; [|done]. destruct (parse_argv SERVER_URL argv). done.
Qed.

(** ** C1 *)

(** C1 (as stated): after the backfill, today's value of every pattern
    counter equals the fresh total, also when that total is 0.  Refuted:
    [main] only writes counts with [count > 0]; with 5 stored for
    "absolutely" on 2024-01-02 and no message of that day in the logs,
    the backfill total is 0 and the stored 5 stays. *)
Lemma C1_zero_total_not_written_counterexample :
  count_of (backfill_today_patterns demo_cfg "2024-01-02" ∅ ∅ (Some [])).1.1
    "absolutely" = 0 /\
  cnt (main_startup demo_cfg "" ["watcher.py"] "2024-01-02" (Some []) demo_stale true).1.1
    "absolutely" "2024-01-02" = 5.
Proof. split; vm_compute; reflexivity. Qed.

(** The scenario of the spec: stored 5, the backfill finds 3 matches of
    the day, the value becomes 3; a later pass meeting one new matching
    message makes it 4. *)
Example backfill_overwrite_then_add :
  cnt (main demo_cfg "" ["watcher.py"] "2024-01-02" (Some demo_three) demo_stale true [])
    .1 "absolutely" "2024-01-02" = 3 /\
  cnt (main demo_cfg "" ["watcher.py"] "2024-01-02" (Some demo_three) demo_stale true
         [("2024-01-02", demo_four, true)]).1 "absolutely" "2024-01-02" = 4.
Proof. split; vm_compute; reflexivity. Qed.

(** C1 (amended): after the start-up backfill, today's value of a
    pattern counter is the freshly computed total when that total is
    positive (overwritten, whatever was stored), and is the stored value
    when the fresh total is 0; a steady-state line carrying a new message
    of today that matches the pattern then adds exactly 1. *)
Theorem C1_backfill_overwrites_positive_totals (cfg : config) (SERVER_URL : string)
    (argv : list string) (today : string) (fs : fsys) (ld : loaded) (ok : bool)
    (q : string) :
  q ∈ PATTERNS cfg ->
  let bp := (backfill_today_patterns cfg today (ld_processed ld) ∅ fs).1.1 in
  let s1 := (main_startup cfg SERVER_URL argv today fs ld ok).1.1 in
  cnt s1 q today =
    (if Nat.ltb 0 (count_of bp q) then count_of bp q
     else count_of (ld_pattern ld q) today) /\
  (forall (p : pstate) (n : string) (e : entry) (r : result),
     process_message_entry cfg e = Some r -> msg_id r ∉ processed_ids (p_store p) ->
     date_str r = today -> has_pattern r q = true ->
     cnt (p_store (steady_step cfg n p (LJson e))) q today = cnt (p_store p) q today + 1).
Proof.
  intros Hq bp s1. split.
  - subst s1. rewrite main_startup_eq.
    destruct (apply_backfill_fold today bp (PATTERNS cfg)
                (pattern_counts (initial_store cfg ld)) []
                (backfill_today_patterns cfg today (ld_processed ld) ∅ fs).1.2
                (backfill_today_patterns cfg today (ld_processed ld) ∅ fs).2
                (<[today := backfill_today_total_messages cfg today fs]> (ld_total ld)))
      as [Hf _].
    destruct fs; simpl; rewrite Hf;
      change (cnt (mkStore _ _ (pattern_counts (initial_store cfg ld)) _) q today)
        with (cnt (initial_store cfg ld) q today);
      rewrite cnt_initial_store;
      destruct (Nat.ltb_spec 0 (count_of bp q)); repeat case_decide; naive_solver lia.
  - intros p n e r He Hin Hd Hpat.
    destruct (steady_step_fresh cfg n p e r He Hin) as (_ & _ & _ & H4 & _).
    rewrite H4. case_decide; naive_solver lia.
Qed.

Lemma C1_backfill_overwrites_positive_totals_witness :
  "absolutely" ∈ PATTERNS demo_cfg /\
  cnt (main_startup demo_cfg "" ["watcher.py"] "2024-01-02" (Some demo_three) demo_stale true).1.1
    "absolutely" "2024-01-02" = 3.
Proof.
  assert (Hq : "absolutely" ∈ PATTERNS demo_cfg) by (simpl; set_solver).
  split; [exact Hq|].
  destruct (C1_backfill_overwrites_positive_totals demo_cfg "" ["watcher.py"] "2024-01-02"
              (Some demo_three) demo_stale true "absolutely" Hq) as [H _].
  rewrite H. vm_compute. reflexivity.
Defined.

(** ** Passes only add *)

Lemma steady_step_cnt_mono cfg n p l q d :
  cnt (p_store p) q d <= cnt (p_store (steady_step cfg n p l)) q d.
Proof.
  destruct l as [| |e]; try done.
  destruct (process_message_entry cfg e) as [r|] eqn:He.
  - destruct (decide (msg_id r ∈ processed_ids (p_store p))) as [Hin|Hin].
    + rewrite steady_step_seen with (r := r); done.
    + destruct (steady_step_fresh cfg n p e r He Hin) as (_ & _ & _ & H4 & _).
      rewrite H4. lia.
  - unfold steady_step. rewrite He. done.
Qed.

Lemma run_steady_cnt_mono cfg L p q d :
  cnt (p_store p) q d <= cnt (p_store (run_lines (steady_step cfg) p L)) q d.
Proof.
  revert p. induction L as [|[n l] L IH]; intros p; [done|]. simpl.
  etrans; [apply (steady_step_cnt_mono cfg n p l)|]. apply IH.
Qed.

Lemma steady_pass_store cfg url sec today ps ok s :
  (steady_pass cfg url sec today ps ok s).1 = p_store (pass_scan cfg ps s).
Proof. unfold steady_pass. destruct (found_activity _ _); done. Qed.

Lemma run_passes_app cfg url sec P1 P2 s :
  (run_passes cfg url sec (P1 ++ P2) s).1 =
  (run_passes cfg url sec P2 (run_passes cfg url sec P1 s).1).1.
Proof.
  revert s. induction P1 as [|[[t ps] ok] P1 IH]; intros s; [done|].
  cbn [app run_passes].
  destruct (steady_pass cfg url sec t ps ok s) as [s1 e1]. specialize (IH s1).
  destruct (run_passes cfg url sec (P1 ++ P2) s1) as [sx ex].
  destruct (run_passes cfg url sec P1 s1) as [sy ey]. simpl in *.
  destruct (run_passes cfg url sec P2 sy). simpl in *. done.
Qed.

Lemma run_passes_cnt_mono cfg url sec P s q d :
  cnt s q d <= cnt (run_passes cfg url sec P s).1 q d.
Proof.
  revert s. induction P as [|[[t ps] ok] P IH]; intros s; [done|]. simpl.
  pose proof (steady_pass_store cfg url sec t ps ok s) as Hst.
  destruct (steady_pass cfg url sec t ps ok s) as [s1 e1]. simpl in Hst.
  specialize (IH s1). destruct (run_passes cfg url sec P s1) as [s2 e2]. simpl in *.
  etrans; [|exact IH]. rewrite Hst. unfold pass_scan. rewrite scan_dirs_lines.
  apply (run_steady_cnt_mono cfg _ (mkP s _ 0)).
Qed.

Lemma main_startup_state cfg SERVER_URL argv today fs ld ok :
  main cfg SERVER_URL argv today fs ld ok [] =
  ((main_startup cfg SERVER_URL argv today fs ld ok).1.1,
   (main_startup cfg SERVER_URL argv today fs ld ok).1.2).
Proof.
  rewrite main_eq. destruct (main_startup _ _ _ _ _ _ _) as [[s1 ev] go].
  destruct go; simpl; [|done]. rewrite app_nil_r. done.
Qed.

(** ** C5 *)

(** C5: over the life of the process the per-pattern daily counters
    only grow, except today's value at start-up: the start-up backfill
    leaves every other date as loaded, and from the end of start-up on,
    any further steady-state passes never lower any value of any date. *)
Theorem C5_pattern_counters_monotone (cfg : config) (SERVER_URL : string)
    (argv : list string) (today : string) (fs : fsys) (ld : loaded) (ok : bool) :
  (forall q d, d <> today ->
     cnt (main cfg SERVER_URL argv today fs ld ok []).1 q d =
     cnt (initial_store cfg ld) q d) /\
  (forall (P1 P2 : list (string * list projdir * bool)) q d,
     cnt (main cfg SERVER_URL argv today fs ld ok P1).1 q d <=
     cnt (main cfg SERVER_URL argv today fs ld ok (P1 ++ P2)).1 q d).
Proof.
  split.
  - intros q d Hd. rewrite main_startup_state. simpl. rewrite main_startup_eq.
    destruct (apply_backfill_fold today
                (backfill_today_patterns cfg today (ld_processed ld) ∅ fs).1.1
                (PATTERNS cfg) (pattern_counts (initial_store cfg ld)) []
                (backfill_today_patterns cfg today (ld_processed ld) ∅ fs).1.2
                (backfill_today_patterns cfg today (ld_processed ld) ∅ fs).2
                (<[today := backfill_today_total_messages cfg today fs]> (ld_total ld)))
      as [Hf _].
    destruct fs; simpl; rewrite Hf; rewrite decide_False by naive_solver; done.
  - intros P1 P2 q d. rewrite !main_eq.
    destruct (main_startup cfg SERVER_URL argv today fs ld ok) as [[s1 ev] go].
    destruct go; [|done].
    pose proof (run_passes_app cfg (parse_argv SERVER_URL argv).1
                  (parse_argv SERVER_URL argv).2 P1 P2 s1) as Happ.
    pose proof (run_passes_cnt_mono cfg (parse_argv SERVER_URL argv).1
                  (parse_argv SERVER_URL argv).2 P2
                  (run_passes cfg (parse_argv SERVER_URL argv).1
                     (parse_argv SERVER_URL argv).2 P1 s1).1 q d) as Hmono.
    rewrite <- Happ in Hmono.
    destruct (run_passes _ _ _ P1 s1) as [sa ea].
    destruct (run_passes _ _ _ (P1 ++ P2) s1) as [sb eb]. simpl in *. exact Hmono.
Qed.

(** ** Today's lines after the backfill *)

(** Every line of [L] carrying a message of [today] has its id in [ids]. *)
Definition today_ids_in (cfg : config) (today : string) (L : list (string * line))
    (ids : gset string) : Prop :=
  forall n e r, (n, LJson e) ∈ L -> process_message_entry cfg e = Some r ->
  date_str r = today -> msg_id r ∈ ids.

Lemma backfill_marks_today cfg today ps processed project :
  today_ids_in cfg today (visible_lines cfg ps)
    (backfill_today_patterns cfg today processed project (Some ps)).1.2.
Proof.
  intros n e r Hin He Hd. unfold backfill_today_patterns. simpl.
  rewrite scan_dirs_lines.
  destruct (run_backfill_grows cfg today (visible_lines cfg ps)
              (mkB (zero_counts (PATTERNS cfg)) ∅ processed project)) as (_ & _ & H3).
  apply H3; [simpl; set_solver|].
  eapply run_backfill_seen_in; done.
Qed.

Lemma steady_step_keeps_today cfg today n p l :
  (forall e r, l = LJson e -> process_message_entry cfg e = Some r ->
     date_str r = today -> msg_id r ∈ processed_ids (p_store p)) ->
  (forall q, cnt (p_store (steady_step cfg n p l)) q today = cnt (p_store p) q today) /\
  count_of (total_messages_counts (p_store (steady_step cfg n p l))) today =
  count_of (total_messages_counts (p_store p)) today.
Proof.
  intros Hl. destruct l as [| |e]; try done.
  destruct (process_message_entry cfg e) as [r|] eqn:He.
  - destruct (decide (msg_id r ∈ processed_ids (p_store p))) as [Hin|Hin].
    + rewrite steady_step_seen with (r := r); done.
    + assert (date_str r <> today) as Hd by (intros Hd; apply Hin; eapply Hl; done).
      destruct (steady_step_fresh cfg n p e r He Hin) as (_ & _ & H3 & H4 & _).
      split.
      * intros q. rewrite H4. case_decide; naive_solver lia.
      * rewrite H3. case_decide; naive_solver lia.
  - unfold steady_step. rewrite He. done.
Qed.

Lemma run_steady_keeps_today cfg today L p :
  today_ids_in cfg today L (processed_ids (p_store p)) ->
  (forall q, cnt (p_store (run_lines (steady_step cfg) p L)) q today =
             cnt (p_store p) q today) /\
  count_of (total_messages_counts (p_store (run_lines (steady_step cfg) p L))) today =
  count_of (total_messages_counts (p_store p)) today.
Proof.
  revert p. induction L as [|[n l] L IH]; intros p Hids; [done|]. simpl.
  destruct (steady_step_keeps_today cfg today n p l) as [H1 H2].
  { intros e r -> He Hd. eapply Hids; [apply elem_of_cons; by left|done|done]. }
  destruct (IH (steady_step cfg n p l)) as [H3 H4].
  { intros n' e r Hin He Hd. apply (steady_step_processed_grows cfg n p l).
    eapply Hids; [apply elem_of_cons; by right|done|done]. }
  split; [intros q; rewrite H3; apply H1|rewrite H4; apply H2].
Qed.

Lemma run_passes_keep_today cfg url sec today ps ups s :
  today_ids_in cfg today (visible_lines cfg ps) (processed_ids s) ->
  let s' := (run_passes cfg url sec (map (fun u => (u.1, ps, u.2)) ups) s).1 in
  (forall q, cnt s' q today = cnt s q today) /\
  count_of (total_messages_counts s') today = count_of (total_messages_counts s) today.
Proof.
  revert s. induction ups as [|[t ok] ups IH]; intros s Hids; [done|].
  cbn [map run_passes fst snd].
  pose proof (steady_pass_store cfg url sec t ps ok s) as Hst.
  destruct (steady_pass cfg url sec t ps ok s) as [s1 e1]. simpl in Hst.
  unfold pass_scan in Hst. rewrite scan_dirs_lines in Hst.
  destruct (run_steady_keeps_today cfg today (visible_lines cfg ps)
              (mkP s (zero_counts (PATTERNS cfg)) 0) Hids) as [H1 H2].
  rewrite <- Hst in H1, H2.
  destruct (IH s1) as [H3 H4].
  { intros n e r Hin He Hd. rewrite Hst.
    apply (run_steady_processed_grows cfg _ (mkP s (zero_counts (PATTERNS cfg)) 0)).
    eapply Hids; done. }
  destruct (run_passes cfg url sec (map (fun u => (u.1, ps, u.2)) ups) s1) as [s2 e2].
  simpl in *. split; [intros q; rewrite H3; apply H1|rewrite H4; apply H2].
Qed.

(** ** C3 *)

(** C3: running the start-up backfill and then any number of
    steady-state passes over the same log files leaves today's value of
    every pattern counter and of the total-message counter exactly as
    the backfill alone left it. *)
Theorem C3_backfill_then_passes_idempotent (cfg : config) (SERVER_URL : string)
    (argv : list string) (today : string) (ps : list projdir) (ld : loaded)
    (ok : bool) (ups : list (string * bool)) :
  let passes := map (fun u => (u.1, ps, u.2)) ups in
  let sb := (main cfg SERVER_URL argv today (Some ps) ld ok []).1 in
  let sn := (main cfg SERVER_URL argv today (Some ps) ld ok passes).1 in
  (forall q, cnt sn q today = cnt sb q today) /\
  count_of (total_messages_counts sn) today = count_of (total_messages_counts sb) today.
Proof.
  intros passes sb sn. subst sb sn. rewrite main_startup_state, main_eq.
  rewrite main_startup_eq. simpl.
  match goal with
  | |- context [run_passes cfg ?u ?sc passes ?s1] =>
      destruct (run_passes_keep_today cfg u sc today ps ups s1) as [H1 H2]
  end.
  { simpl. apply backfill_marks_today. }
  subst passes.
  destruct (run_passes _ _ _ _ _) as [s2 e2]. simpl in *. split; [exact H1|exact H2].
Qed.

(** ** C6 *)

(** C6 (as stated): with no projects root the engine writes no store
    file.  Refuted: the start-up sequence runs before the root check and
    writes the total-message store (today set to 0), the processed-id
    store and an emptied per-project store; here the stores of an earlier
    run ([project_counts = {"proj": 1}]) are overwritten. *)
Lemma C6_missing_root_writes_stores_counterexample :
  (main_startup demo_cfg "" ["watcher.py"] "2024-01-02" None demo_prev_run true).1.2 =
  [SaveTotal (<["2024-01-02" := 0]> {["2024-01-01" := 1]});
   SaveProcessed {["m1"]}; SaveProject ∅;
   Say "Error: Claude projects directory not found"] /\
  (main_startup demo_cfg "" ["watcher.py"] "2024-01-02" None demo_prev_run true).2 = false.
Proof. split; vm_compute; reflexivity. Qed.

(** C6 (amended): when the projects root is missing, no log line is
    counted and the loop does not start; [main] still writes the
    total-message store with today's count set to 0, the processed-id
    store as loaded and an empty per-project store (no per-pattern store),
    makes the start-up upload if an endpoint is configured, prints the
    error and returns. *)
Theorem C6_missing_root_startup (cfg : config) (SERVER_URL : string)
    (argv : list string) (today : string) (ld : loaded) (ok : bool)
    (passes : list (string * list projdir * bool)) :
  let s := mkStore (ld_processed ld) ∅ (pattern_counts (initial_store cfg ld))
             (<[today := 0]> (ld_total ld)) in
  let ev := [SaveTotal (<[today := 0]> (ld_total ld)); SaveProcessed (ld_processed ld);
             SaveProject ∅]
            ++ startup_report cfg (parse_argv SERVER_URL argv).1
                 (parse_argv SERVER_URL argv).2 today ok s
            ++ [Say "Error: Claude projects directory not found"] in
  main_startup cfg SERVER_URL argv today None ld ok = (s, ev, false) /\
  main cfg SERVER_URL argv today None ld ok passes = (s, ev).
Proof.
  intros s ev.
  assert (Hst : main_startup cfg SERVER_URL argv today None ld ok = (s, ev, false)).
  { rewrite main_startup_eq. cbn -[initial_store zero_counts apply_backfill].
    destruct (apply_backfill_fold today (zero_counts (PATTERNS cfg)) (PATTERNS cfg)
                (pattern_counts (initial_store cfg ld)) [] ∅ ∅ ∅) as [_ Hz].
    rewrite Hz by (intros; apply count_of_zero_counts). simpl.
    subst s ev. done. }
  split; [exact Hst|]. unfold main. rewrite Hst. done.
Qed.

(** ** C7 *)

(** Lines that decode but are not JSON are skipped by every scan: the
    per-line bodies leave their state unchanged on them. *)
Lemma scan_file_skips_bad_json {A} (step : A -> line -> A) a l1 l2 :
  (forall x, step x LBadJson = x) ->
  scan_file step a (l1 ++ LBadJson :: l2) = scan_file step a (l1 ++ l2).
Proof.
  intros Hs. revert a. induction l1 as [|l l1 IH]; intros a.
  - simpl. rewrite Hs. done.
  - destruct l; simpl; [done| |]; apply IH.
Qed.

Lemma bad_json_lines_skipped cfg today n p b seen l1 l2 :
  scan_file (steady_step cfg n) p (l1 ++ LBadJson :: l2) =
    scan_file (steady_step cfg n) p (l1 ++ l2) /\
  scan_file (backfill_pattern_step cfg today n) b (l1 ++ LBadJson :: l2) =
    scan_file (backfill_pattern_step cfg today n) b (l1 ++ l2) /\
  scan_file (backfill_total_step today) seen (l1 ++ LBadJson :: l2) =
    scan_file (backfill_total_step today) seen (l1 ++ l2).
Proof. split; [|split]; apply scan_file_skips_bad_json; done. Qed.

(** C7 (code defect): a line the UTF-8 decoder rejects raises inside the
    [for line in f] header, outside the per-line [try], so the outer
    [except: pass] drops the rest of the file: the valid line after it
    is never counted, by the steady-state pass nor by either backfill. *)
Lemma C7_undecodable_line_aborts_file :
  let good := demo_line "m1" "2024-01-01" ["absolutely"] in
  let with_bad := [mkProj "proj" true [[LBadUtf8; good]]] in
  let without := [mkProj "proj" true [[good]]] in
  count_of (total_messages_counts
    (steady_pass demo_cfg "" None "2024-01-01" with_bad true empty_store).1) "2024-01-01" = 0 /\
  count_of (total_messages_counts
    (steady_pass demo_cfg "" None "2024-01-01" without true empty_store).1) "2024-01-01" = 1 /\
  cnt (steady_pass demo_cfg "" None "2024-01-01" with_bad true empty_store).1
    "absolutely" "2024-01-01" = 0 /\
  cnt (steady_pass demo_cfg "" None "2024-01-01" without true empty_store).1
    "absolutely" "2024-01-01" = 1 /\
  count_of (backfill_today_patterns demo_cfg "2024-01-01" ∅ ∅ (Some with_bad)).1.1
    "absolutely" = 0 /\
  count_of (backfill_today_patterns demo_cfg "2024-01-01" ∅ ∅ (Some without)).1.1
    "absolutely" = 1 /\
  backfill_today_total_messages demo_cfg "2024-01-01" (Some with_bad) = 0 /\
  backfill_today_total_messages demo_cfg "2024-01-01" (Some without) = 1.
Proof. repeat split; vm_compute; reflexivity. Qed.

(** ** C8 *)

(** C8 (code defect): after five restarts within 60 s the sixth crash is
    answered with "Giving up", but nothing records it: the monitoring
    loop keeps calling [check_and_restart], the window slides past the
    old restart times, and the instance is started again (here: crashes
    at t = 0..5 s, give-up at t = 5, restart at t = 70). *)
Lemma C8_restarts_after_giving_up :
  let w5 := (crash_then_check 4 (crash_then_check 3 (crash_then_check 2
              (crash_then_check 1 (crash_then_check 0 Supervisor.started).2).2).2).2).2 in
  crash_then_check 5 w5 = (false, Supervisor.mkWatcher 5 5 60 [0; 1; 2; 3; 4]%Z false) /\
  (Supervisor.check_and_restart 70 (crash_then_check 5 w5).2).1 = true.
Proof. split; vm_compute; reflexivity. Qed.

(** ** C9 *)

(** C9: a steady-state pass ends in the same state whatever the outcome
    of the upload; when it found something new, its effects are the
    writes of every store with the values of that final state, and only
    then the report; a failed upload adds only the call and its logged
    failure. *)
Theorem C9_persist_then_report (cfg : config) (api_url : string)
    (api_secret : option string) (today : string) (ps : list projdir) (s : store) :
  let s' := p_store (pass_scan cfg ps s) in
  (steady_pass cfg api_url api_secret today ps true s).1 =
    (steady_pass cfg api_url api_secret today ps false s).1 /\
  (forall ok, steady_pass cfg api_url api_secret today ps ok s =
     (s', if found_activity cfg (pass_scan cfg ps s)
          then save_all cfg s' ++ report cfg api_url api_secret today ok s'
          else [])) /\
  (forall s1 : store, report cfg api_url api_secret today false s1 =
     if String.eqb api_url "" then []
     else [Upload api_url api_secret today (today_snapshot cfg s1 today)
             (count_of (total_messages_counts s1) today);
           Say "upload failed"]).
Proof.
  intros s'. split; [|split].
  - rewrite !steady_pass_store. done.
  - intros ok. unfold steady_pass. subst s'.
    destruct (found_activity cfg (pass_scan cfg ps s)); done.
  - intros s1. unfold report. destruct (String.eqb api_url ""); done.
Qed.

(** ** C10 *)

(** C10: once [--upload] followed by a value is met, the scan stops: the
    value is the URL, the next argument is the secret when it does not
    start with "--", and otherwise the secret is whatever the arguments
    before [--upload] set; nothing after that point is read, so a later
    [--secret] is ignored. *)
Theorem C10_upload_stops_argument_scan (SERVER_URL : string)
    (pre post : list string) (url : string) :
  "--upload" ∉ pre ->
  parse_argv SERVER_URL (pre ++ "--upload" :: url :: post) =
  (url, match post with
        | s :: _ => if String.prefix "--" s
                    then (parse_argv SERVER_URL (pre ++ ["--upload"])).2
                    else Some s
        | [] => (parse_argv SERVER_URL (pre ++ ["--upload"])).2
        end).
Proof.
  unfold parse_argv. generalize (@None string) as sec. revert SERVER_URL.
  induction pre as [|a pre IH]; intros srv sec Hpre.
  - simpl. destruct post as [|s post]; [done|]. destruct (String.prefix "--" s); done.
  - apply not_elem_of_cons in Hpre as [Ha Hpre].
    cbn [app parse_args].
    destruct (String.eqb_spec a "--upload") as [->|_]; [done|]. simpl.
    destruct (String.eqb_spec a "--secret") as [->|_].
    + assert (Hhd : exists v rest1 rest2,
                 pre ++ "--upload" :: url :: post = v :: rest1 /\
                 pre ++ ["--upload"] = v :: rest2).
      { destruct pre as [|v pre]; [by do 3 eexists|]. by do 3 eexists. }
      destruct Hhd as (v & rest1 & rest2 & E1 & E2).
      rewrite E1, E2. rewrite <- E1, <- E2. apply IH; done.
    + apply IH; done.
Qed.

Lemma C10_upload_stops_argument_scan_witness :
  ("--upload" ∉ ["watcher.py"; "--secret"; "s0"]) /\
  parse_argv "https://default" (["watcher.py"; "--secret"; "s0"] ++
     "--upload" :: "https://host" :: ["--secret"; "s1"]) = ("https://host", Some "s0").
Proof.
  assert (H : "--upload" ∉ ["watcher.py"; "--secret"; "s0"]) by set_solver.
  split; [exact H|].
  rewrite (C10_upload_stops_argument_scan "https://default" _ ["--secret"; "s1"]
             "https://host" H).
  reflexivity.
Defined.

(** * Further properties of the code *)

(** Sum of the values of a counter dict, [sum(d.values())]. *)
Definition sum_counts (m : gmap string nat) : nat :=
  map_fold (fun _ v acc => v + acc) 0 m.

(** [sum(pattern_counts[q].values())] *)
Definition psum (s : store) (q : string) : nat :=
  sum_counts (default ∅ (pattern_counts s !! q)).

(** What a stretch of the steady-state loop adds, from [p0] to [p]. *)
Definition pass_inv (p0 p : pstate) : Prop :=
  processed_ids (p_store p0) ⊆ processed_ids (p_store p) /\
  size (processed_ids (p_store p)) + p_new_total p0 =
    size (processed_ids (p_store p0)) + p_new_total p /\
  sum_counts (total_messages_counts (p_store p)) + p_new_total p0 =
    sum_counts (total_messages_counts (p_store p0)) + p_new_total p /\
  (forall q, psum (p_store p) q + count_of (p_new_matches p0) q =
             psum (p_store p0) q + count_of (p_new_matches p) q) /\
  sum_counts (project_counts (p_store p)) + count_of (p_new_matches p0) "absolutely" =
    sum_counts (project_counts (p_store p0)) + count_of (p_new_matches p) "absolutely".

(** The pattern backfill [b] and the total backfill [seen] in step. *)
Definition backfill_inv (P0 : gset string) (J0 : gmap string nat)
    (b : bstate) (seen : gset string) : Prop :=
  b_seen_today b = seen /\ b_processed b = P0 ∪ seen /\
  (forall q, count_of (b_pattern_matches b) q <= size seen) /\
  sum_counts (b_project b) = sum_counts J0 + count_of (b_pattern_matches b) "absolutely".

(** The argument before the first one of the rest. *)
Definition last_arg (prev : option string) (A : list string) : option string :=
  fold_left (fun _ a => Some a) A prev.

Lemma sum_counts_insert k v m :
  sum_counts (<[k := v]> m) + count_of m k = sum_counts m + v.
Proof.
  unfold sum_counts, count_of. destruct (m !! k) as [v0|] eqn:E.
  - rewrite <- insert_delete_eq.
    rewrite (map_fold_delete_L _ _ k v0 m) by (intros; lia || done).
    rewrite map_fold_insert_L; [simpl; lia|intros; lia|apply lookup_delete_eq].
  - rewrite map_fold_insert_L; [simpl; lia|intros; lia|done].
Qed.

Lemma sum_counts_incr k m : sum_counts (incr k m) = S (sum_counts m).
Proof.
  unfold incr. pose proof (sum_counts_insert k (default 0 (m !! k) + 1) m) as H.
  unfold count_of in H. lia.
Qed.

Lemma size_add_fresh (x : string) (X : gset string) :
  x ∉ X -> size ({[x]} ∪ X) = S (size X).
Proof. intros Hx. rewrite size_union by set_solver. rewrite size_singleton. done. Qed.

Lemma pass_inv_refl p : pass_inv p p.
Proof. unfold pass_inv. repeat split; [set_solver|..]; intros; lia. Qed.

Lemma pass_inv_trans p0 p1 p2 : pass_inv p0 p1 -> pass_inv p1 p2 -> pass_inv p0 p2.
Proof.
  intros (A1 & A2 & A3 & A4 & A5) (B1 & B2 & B3 & B4 & B5).
  repeat split; [set_solver|lia|lia| |lia].
  intros q. specialize (A4 q). specialize (B4 q). lia.
Qed.

Lemma steady_count_inv n d p pname : pass_inv p (steady_count n d p pname).
Proof.
  unfold steady_count, pass_inv. simpl. split; [set_solver|]. split; [lia|]. split; [lia|]. split.
  - intros q. unfold psum. simpl. rewrite count_of_incr.
    destruct (decide (pname = q)) as [->|Hne].
    + rewrite lookup_insert_eq. simpl. rewrite sum_counts_incr. lia.
    + rewrite lookup_insert_ne by done. lia.
  - rewrite count_of_incr. destruct (String.eqb_spec pname "absolutely") as [->|Hne].
    + rewrite sum_counts_incr. rewrite decide_True by done. lia.
    + rewrite decide_False by done. lia.
Qed.

Lemma steady_count_fold_inv n d ns p : pass_inv p (fold_left (steady_count n d) ns p).
Proof.
  revert p. induction ns as [|x ns IH]; intros p; simpl; [apply pass_inv_refl|].
  eapply pass_inv_trans; [apply steady_count_inv|apply IH].
Qed.

Lemma steady_step_inv cfg n p l : pass_inv p (steady_step cfg n p l).
Proof.
  destruct l as [| |e]; try apply pass_inv_refl.
  unfold steady_step. destruct (process_message_entry cfg e) as [r|]; [|apply pass_inv_refl].
  case_bool_decide as Hin; [apply pass_inv_refl|].
  eapply pass_inv_trans; [|apply steady_count_fold_inv].
  unfold pass_inv. simpl. rewrite size_add_fresh by done. rewrite sum_counts_incr.
  split; [set_solver|]. split; [lia|]. split; [lia|]. split; [intros; unfold psum; simpl; lia|simpl; lia].
Qed.

Lemma run_steady_inv cfg L p : pass_inv p (run_lines (steady_step cfg) p L).
Proof.
  revert p. induction L as [|[n l] L IH]; intros p; simpl; [apply pass_inv_refl|].
  eapply pass_inv_trans; [apply steady_step_inv|apply IH].
Qed.

Lemma pass_scan_inv cfg ps s :
  let p := pass_scan cfg ps s in
  processed_ids s ⊆ processed_ids (p_store p) /\
  size (processed_ids (p_store p)) = size (processed_ids s) + p_new_total p /\
  sum_counts (total_messages_counts (p_store p)) =
    sum_counts (total_messages_counts s) + p_new_total p /\
  (forall q, psum (p_store p) q = psum s q + count_of (p_new_matches p) q) /\
  sum_counts (project_counts (p_store p)) =
    sum_counts (project_counts s) + count_of (p_new_matches p) "absolutely".
Proof.
  unfold pass_scan. rewrite scan_dirs_lines.
  destruct (run_steady_inv cfg (visible_lines cfg ps) (mkP s (zero_counts (PATTERNS cfg)) 0))
    as (H1 & H2 & H3 & H4 & H5).
  simpl in *. rewrite !count_of_zero_counts in *.
  repeat split; [done|lia|lia| |lia]. intros q. specialize (H4 q).
  rewrite count_of_zero_counts in H4. lia.
Qed.

(** Each per-pattern tally of a pass is at most its count of new ids. *)
Lemma steady_step_new_le cfg n p l :
  (forall q, count_of (p_new_matches p) q <= p_new_total p) ->
  forall q, count_of (p_new_matches (steady_step cfg n p l)) q <=
            p_new_total (steady_step cfg n p l).
Proof.
  intros Hle. destruct l as [| |e]; try done.
  destruct (process_message_entry cfg e) as [r|] eqn:He.
  - destruct (decide (msg_id r ∈ processed_ids (p_store p))) as [Hin|Hin].
    + rewrite steady_step_seen with (r := r); done.
    + destruct (steady_step_fresh cfg n p e r He Hin) as (_ & H2 & _ & _ & _ & H6).
      intros q. rewrite H6, H2. specialize (Hle q). case_decide; lia.
  - unfold steady_step. rewrite He. done.
Qed.

Lemma pass_scan_new_le cfg ps s q :
  count_of (p_new_matches (pass_scan cfg ps s)) q <= p_new_total (pass_scan cfg ps s).
Proof.
  unfold pass_scan. rewrite scan_dirs_lines. revert q.
  assert (forall L p, (forall q, count_of (p_new_matches p) q <= p_new_total p) ->
            forall q, count_of (p_new_matches (run_lines (steady_step cfg) p L)) q <=
                      p_new_total (run_lines (steady_step cfg) p L)) as H.
  { induction L as [|[n l] L IH]; intros p Hp; simpl; [done|].
    apply IH. apply steady_step_new_le. done. }
  apply H. intros q. simpl. rewrite count_of_zero_counts. lia.
Qed.

Lemma found_activity_new cfg ps s :
  found_activity cfg (pass_scan cfg ps s) = Nat.ltb 0 (p_new_total (pass_scan cfg ps s)).
Proof.
  unfold found_activity. destruct (Nat.ltb_spec 0 (p_new_total (pass_scan cfg ps s))) as [H|H].
  - apply orb_true_r.
  - rewrite orb_false_r. apply not_true_is_false. intros Hex.
    apply existsb_exists in Hex as [q [_ Hq]]. apply Nat.ltb_lt in Hq.
    pose proof (pass_scan_new_le cfg ps s q) as Hle. unfold count_of in Hle. lia.
Qed.

(** Lines whose messages are all already processed leave a pass unchanged. *)
Lemma run_steady_all_seen cfg L p :
  (forall n e r, (n, LJson e) ∈ L -> process_message_entry cfg e = Some r ->
     msg_id r ∈ processed_ids (p_store p)) ->
  run_lines (steady_step cfg) p L = p.
Proof.
  revert p. induction L as [|[n l] L IH]; intros p Hall; [done|]. simpl.
  assert (steady_step cfg n p l = p) as ->.
  { destruct l as [| |e]; try done. unfold steady_step.
    destruct (process_message_entry cfg e) as [r|] eqn:He; [|done].
    rewrite bool_decide_eq_true_2; [done|]. eapply Hall; [|done]. by left. }
  apply IH. intros n' e r Hin He. eapply Hall; [by right|done].
Qed.

(** A pass of the steady-state loop ([pass_scan]) only adds processed ids, and it adds exactly one per new message counted in [new_total]; the day totals grow by the same number. *)
Theorem pass_adds_one_message_per_new_id (cfg : config) (ps : list projdir) (s : store) :
  let p := pass_scan cfg ps s in
  processed_ids s ⊆ processed_ids (p_store p) /\
  size (processed_ids (p_store p)) = size (processed_ids s) + p_new_total p /\
  sum_counts (total_messages_counts (p_store p)) =
    sum_counts (total_messages_counts s) + p_new_total p.
Proof.
  destruct (pass_scan_inv cfg ps s) as (H1 & H2 & H3 & _). done.
Qed.

(** For every pattern, a pass adds to the sum of that pattern's day counts exactly the number of new messages it reports for the pattern. *)
Theorem pass_pattern_sums (cfg : config) (ps : list projdir) (s : store) (q : string) :
  let p := pass_scan cfg ps s in
  psum (p_store p) q = psum s q + count_of (p_new_matches p) q.
Proof. destruct (pass_scan_inv cfg ps s) as (_ & _ & _ & H & _). apply H. Qed.

(** A pass adds to the sum of the project counts exactly the number of new messages it reports for "absolutely". *)
Theorem pass_project_sums (cfg : config) (ps : list projdir) (s : store) :
  let p := pass_scan cfg ps s in
  sum_counts (project_counts (p_store p)) =
    sum_counts (project_counts s) + count_of (p_new_matches p) "absolutely".
Proof. destruct (pass_scan_inv cfg ps s) as (_ & _ & _ & _ & H). apply H. Qed.

(** A steady-state pass posts to the server (and writes the store) exactly when the set of processed ids changes. *)
Theorem pass_writes_iff_new_ids (cfg : config) (api_url : string)
    (api_secret : option string) (today : string) (ps : list projdir) (ok : bool) (s : store) :
  (steady_pass cfg api_url api_secret today ps ok s).2 = [] <->
  processed_ids (steady_pass cfg api_url api_secret today ps ok s).1 = processed_ids s.
Proof.
  rewrite steady_pass_store. destruct (pass_scan_inv cfg ps s) as (H1 & H2 & _).
  unfold steady_pass. rewrite found_activity_new.
  destruct (Nat.ltb_spec 0 (p_new_total (pass_scan cfg ps s))) as [Hp|Hz]; simpl.
  - split; [done|]. intros Heq. rewrite Heq in H2. lia.
  - split; [|done]. intros _. symmetry. apply set_subseteq_size_eq; [done|lia].
Qed.

(** Scanning the same files again right after a pass, whatever the date, changes nothing and posts nothing. *)
Theorem rescan_is_noop (cfg : config) (api_url : string) (api_secret : option string)
    (today today' : string) (ps : list projdir) (ok ok' : bool) (s : store) :
  let s' := (steady_pass cfg api_url api_secret today ps ok s).1 in
  steady_pass cfg api_url api_secret today' ps ok' s' = (s', []).
Proof.
  cbv zeta. rewrite steady_pass_store.
  assert (pass_scan cfg ps (p_store (pass_scan cfg ps s)) =
          mkP (p_store (pass_scan cfg ps s)) (zero_counts (PATTERNS cfg)) 0) as Hid.
  { unfold pass_scan at 1. rewrite scan_dirs_lines. apply run_steady_all_seen.
    intros n e r Hin He. simpl. unfold pass_scan. rewrite scan_dirs_lines.
    eapply run_steady_processed_in; done. }
  unfold steady_pass. rewrite found_activity_new. rewrite Hid. done.
Qed.

(** ** The two start-up backfills see the same messages *)

Lemma backfill_total_step_eq cfg today seen e :
  backfill_total_step today seen (LJson e) =
  match process_message_entry cfg e with
  | Some r => if String.eqb (date_str r) today && negb (bool_decide (msg_id r ∈ seen))
              then {[msg_id r]} ∪ seen else seen
  | None => seen
  end.
Proof.
  unfold backfill_total_step, process_message_entry.
  destruct (String.eqb (etype e) "assistant"); [|done].
  destruct (String.eqb (if String.eqb (uuid e) "" then requestId e else uuid e) ""); [done|].
  destruct (timestamp e); done.
Qed.

Lemma backfill_count_sum pn ns b :
  let b' := fold_left (backfill_count pn) ns b in
  sum_counts (b_project b') + count_of (b_pattern_matches b) "absolutely" =
  sum_counts (b_project b) + count_of (b_pattern_matches b') "absolutely".
Proof.
  revert b. induction ns as [|n ns IH]; intros b; simpl; [lia|].
  specialize (IH (backfill_count pn b n)). simpl in IH.
  rewrite count_of_incr in IH.
  destruct (String.eqb_spec n "absolutely") as [->|Hne].
  - rewrite sum_counts_incr in IH. rewrite decide_True in IH by done. lia.
  - rewrite decide_False in IH by done. lia.
Qed.

Lemma backfill_step_inv cfg today P0 J0 n b seen l :
  backfill_inv P0 J0 b seen ->
  backfill_inv P0 J0 (backfill_pattern_step cfg today n b l) (backfill_total_step today seen l).
Proof.
  intros (H1 & H2 & H3 & H4). destruct l as [| |e]; try done.
  rewrite (backfill_total_step_eq cfg).
  destruct (process_message_entry cfg e) as [r|] eqn:He.
  2:{ unfold backfill_pattern_step. rewrite He. done. }
  destruct (String.eqb_spec (date_str r) today) as [Hd|Hd]; cbn [andb].
  2:{ unfold backfill_pattern_step. rewrite He.
      destruct (String.eqb_spec (date_str r) today); [done|]. done. }
  destruct (decide (msg_id r ∈ seen)) as [Hin|Hin].
  - rewrite bool_decide_eq_true_2 by done. cbn [negb].
    rewrite backfill_step_seen with (r := r); [done|done|]. by rewrite H1.
  - rewrite bool_decide_eq_false_2 by done. cbn [negb].
    destruct (backfill_step_fresh cfg today n b e r He Hd) as (F1 & F2 & F3 & _).
    { by rewrite H1. }
    split; [rewrite F1, H1; done|]. split; [rewrite F2, H2; set_solver|].
    split.
    + intros q. rewrite F3, size_add_fresh by done. specialize (H3 q). case_decide; lia.
    + unfold backfill_pattern_step. rewrite He, Hd, String.eqb_refl. simpl.
      rewrite bool_decide_eq_false_2 by (by rewrite H1).
      pose proof (backfill_count_sum n (message_patterns (text_blocks r))
        (mkB (b_pattern_matches b) ({[msg_id r]} ∪ b_seen_today b)
             ({[msg_id r]} ∪ b_processed b) (b_project b))) as Hs.
      simpl in Hs. lia.
Qed.

Lemma run_backfill_inv cfg today P0 J0 L b seen :
  backfill_inv P0 J0 b seen ->
  backfill_inv P0 J0 (run_lines (backfill_pattern_step cfg today) b L)
    (run_lines (fun _ => backfill_total_step today) seen L).
Proof.
  revert b seen. induction L as [|[n l] L IH]; intros b seen Hinv; [done|].
  simpl. apply IH. apply backfill_step_inv. done.
Qed.

Lemma backfill_inv_today cfg today processed project fs :
  let '(bp, pr, pj) := backfill_today_patterns cfg today processed project fs in
  exists S, backfill_inv processed project (mkB bp S pr pj) S /\
            size S = backfill_today_total_messages cfg today fs.
Proof.
  destruct fs as [ps|].
  - simpl. exists (scan_dirs cfg (fun _ => backfill_total_step today) ∅ ps).
    split; [|done]. rewrite !scan_dirs_lines.
    destruct (run_backfill_inv cfg today processed project (visible_lines cfg ps)
                (mkB (zero_counts (PATTERNS cfg)) ∅ processed project) ∅)
      as (H1 & H2 & H3 & H4).
    { repeat split; simpl; [set_solver| |].
      - intros q. rewrite count_of_zero_counts. lia.
      - rewrite count_of_zero_counts. lia. }
    repeat split; done.
  - simpl. exists ∅. split; [|done]. repeat split; simpl; [set_solver| |].
    + intros q. rewrite count_of_zero_counts. lia.
    + rewrite count_of_zero_counts. lia.
Qed.

(** [backfill_today_patterns] adds to the processed ids exactly the set of ids that [backfill_today_total_messages] counts, and no pattern is counted more often than that total. *)
Theorem backfill_patterns_within_total (cfg : config) (today : string)
    (processed : gset string) (project : gmap string nat) (fs : fsys) :
  let '(bp, pr, _) := backfill_today_patterns cfg today processed project fs in
  exists S, pr = processed ∪ S /\
            size S = backfill_today_total_messages cfg today fs /\
            forall q, count_of bp q <= backfill_today_total_messages cfg today fs.
Proof.
  pose proof (backfill_inv_today cfg today processed project fs) as H.
  destruct (backfill_today_patterns cfg today processed project fs) as [[bp pr] pj].
  destruct H as (S & (_ & H2 & H3 & _) & Hs). exists S. simpl in *.
  split; [done|]. split; [done|]. intros q. rewrite <- Hs. apply H3.
Qed.

(** [backfill_today_patterns] adds to the sum of the project counts exactly its count for "absolutely". *)
Theorem backfill_project_sum (cfg : config) (today : string)
    (processed : gset string) (project : gmap string nat) (fs : fsys) :
  let '(bp, _, pj) := backfill_today_patterns cfg today processed project fs in
  sum_counts pj = sum_counts project + count_of bp "absolutely".
Proof.
  pose proof (backfill_inv_today cfg today processed project fs) as H.
  destruct (backfill_today_patterns cfg today processed project fs) as [[bp pr] pj].
  destruct H as (S & (_ & _ & _ & H4) & _). exact H4.
Qed.

(** ** Command line *)

Lemma parse_args_skip a X url sec :
  String.eqb a "--upload" = false -> String.eqb a "--secret" = false ->
  parse_args (a :: X) url sec = parse_args X url sec.
Proof. intros H1 H2. simpl. rewrite H1, H2. done. Qed.

Lemma parse_args_secret_head v X url sec :
  parse_args ("--secret" :: v :: X) url sec = parse_args (v :: X) url (Some v).
Proof. reflexivity. Qed.

Lemma parse_args_upload (pre post : list string) (u url : string) (sec : option string) :
  "--upload" ∉ pre ->
  parse_args (pre ++ "--upload" :: u :: post) url sec =
  (u, match post with
      | x :: _ => if String.prefix "--" x then (parse_args (pre ++ ["--upload"]) url sec).2
                  else Some x
      | [] => (parse_args (pre ++ ["--upload"]) url sec).2
      end).
Proof.
  revert sec. induction pre as [|a pre IH]; intros sec Hpre.
  - simpl. destruct post as [|x post]; [done|]. destruct (String.prefix "--" x); done.
  - apply not_elem_of_cons in Hpre as [Ha Hpre].
    cbn [app parse_args].
    destruct (String.eqb_spec a "--upload") as [->|_]; [done|]. simpl.
    destruct (String.eqb_spec a "--secret") as [->|_].
    + assert (Hhd : exists v rest1 rest2,
                 pre ++ "--upload" :: u :: post = v :: rest1 /\
                 pre ++ ["--upload"] = v :: rest2).
      { destruct pre as [|v pre]; [by do 3 eexists|]. by do 3 eexists. }
      destruct Hhd as (v & rest1 & rest2 & E1 & E2).
      rewrite E1, E2. rewrite <- E1, <- E2. apply IH; done.
    + apply IH; done.
Qed.

Lemma parse_args_url (L : list string) (url : string) (sec : option string) :
  "--upload" ∉ L ->
  (parse_args L url sec).1 = url /\ (parse_args (L ++ ["--upload"]) url sec).1 = url.
Proof.
  revert sec. induction L as [|a L IH]; intros sec HL; [done|].
  apply not_elem_of_cons in HL as [Ha HL]. cbn [app parse_args].
  destruct (String.eqb_spec a "--upload") as [->|_]; [done|]. simpl.
  destruct (String.eqb a "--secret").
  - destruct L as [|v L']; simpl; [done|]. apply IH; done.
  - apply IH; done.
Qed.

Lemma parse_args_secret_last (pre : list string) (x url : string) (sec : option string) :
  "--upload" ∉ pre -> (parse_args (pre ++ ["--secret"; x]) url sec).2 = Some x.
Proof.
  revert sec. induction pre as [|a pre IH]; intros sec Hpre.
  - simpl. destruct (String.eqb_spec x "--upload") as [->|_]; [done|].
    destruct (String.eqb x "--secret"); done.
  - apply not_elem_of_cons in Hpre as [Ha Hpre]. cbn [app parse_args].
    destruct (String.eqb_spec a "--upload") as [->|_]; [done|]. simpl.
    destruct (String.eqb a "--secret").
    + assert (Hhd : exists v rest, pre ++ ["--secret"; x] = v :: rest).
      { destruct pre as [|v pre]; by do 2 eexists. }
      destruct Hhd as (v & rest & E). rewrite E. rewrite <- E. apply IH; done.
    + apply IH; done.
Qed.

Lemma is_passed_flag_prefix s : String.prefix "--" s = false -> is_passed_flag s = false.
Proof.
  intros H. unfold is_passed_flag.
  destruct (String.eqb_spec s "--secret") as [->|_]; [done|].
  destruct (String.eqb_spec s "--upload") as [->|_]; done.
Qed.

Lemma pass_through_sub prev L x : x ∈ pass_through prev L -> x ∈ L.
Proof.
  revert prev. induction L as [|a L IH]; intros prev Hx; simpl in Hx; [done|].
  apply elem_of_app in Hx as [Hx|Hx].
  - destruct (_ || _); [|by apply not_elem_of_nil in Hx].
    apply list_elem_of_singleton in Hx. subst. by left.
  - right. by eapply IH.
Qed.

Lemma pass_through_app prev A B :
  pass_through prev (A ++ B) = pass_through prev A ++ pass_through (last_arg prev A) B.
Proof.
  revert prev. induction A as [|a A IH]; intros prev; [done|].
  cbn [app pass_through]. rewrite IH, app_assoc. done.
Qed.

(** After a non-flag argument, the first argument passed on is a flag. *)
Lemma pass_through_head p post :
  is_passed_flag p = false ->
  match pass_through (Some p) post with x :: _ => is_passed_flag x = true | [] => True end.
Proof.
  revert p. induction post as [|a post IH]; intros p Hp; [done|].
  simpl. rewrite Hp, orb_false_r.
  destruct (is_passed_flag a) eqn:Ha; [done|]. simpl. apply IH. done.
Qed.

Lemma pass_through_parse prev L T url sec :
  "--upload" ∉ L -> T = [] \/ T = ["--upload"] ->
  parse_args (pass_through prev (L ++ T)) url sec = parse_args (L ++ T) url sec.
Proof.
  intros HL HT. revert prev sec. induction L as [|a L IH]; intros prev sec.
  - destruct HT as [->| ->]; [done|]. simpl. destruct prev; done.
  - apply not_elem_of_cons in HL as [Ha HL]. specialize (IH HL).
    cbn [app pass_through].
    destruct (String.eqb_spec a "--secret") as [->|Hs].
    + pose proof (IH (Some "--secret")) as IH'. clear IH.
      destruct (L ++ T) as [|v rest]; [by destruct prev|].
      specialize (IH' (Some v)).
      assert (is_passed_flag "--secret" = true) as Hf by reflexivity.
      cbn [pass_through] in IH' |- *. rewrite Hf in IH' |- *.
      rewrite orb_true_r in IH' |- *. rewrite orb_true_l. cbn [app] in IH' |- *.
      rewrite !parse_args_secret_head. exact IH'.
    + assert (String.eqb a "--upload" = false) as Hu by (by apply String.eqb_neq).
      assert (String.eqb a "--secret" = false) as Hs' by (by apply String.eqb_neq).
      rewrite (parse_args_skip a (L ++ T)) by done.
      destruct (_ || _); simpl; [rewrite Hu, Hs'; simpl|]; apply IH.
Qed.

Lemma not_flag_neq a :
  is_passed_flag a = false -> String.eqb a "--upload" = false /\ String.eqb a "--secret" = false.
Proof. unfold is_passed_flag. intros H. apply orb_false_iff in H as [H1 H2]. done. Qed.

(** When the command line of the supervisor has no [--upload] and no secret right after the program name, a watcher started by [WatcherProcess.start] parses the same server URL and secret as the supervisor. *)
Theorem child_parses_like_parent (SERVER_URL executable script prog : string)
    (args : list string) :
  is_passed_flag prog = false -> is_passed_flag script = false -> "--upload" ∉ args ->
  parse_argv SERVER_URL (tail (start_cmd executable script (prog :: args))) =
  parse_argv SERVER_URL (prog :: args).
Proof.
  intros Hp Hs Hu. unfold parse_argv, start_cmd. cbn [tail].
  destruct (not_flag_neq prog Hp) as [Hp1 Hp2]. destruct (not_flag_neq script Hs) as [Hs1 Hs2].
  rewrite !parse_args_skip by done.
  pose proof (pass_through_parse None args [] SERVER_URL None Hu (or_introl eq_refl)) as H.
  rewrite !app_nil_r in H. exact H.
Qed.

Lemma child_parses_like_parent_witness :
  is_passed_flag "watcher.py" = false /\ is_passed_flag "unified_watcher.py" = false /\
  ("--upload" ∉ ["--secret"; "s1"; "-v"]) /\
  parse_argv "https://default"
    (tail (start_cmd "python3" "watcher.py" ["unified_watcher.py"; "--secret"; "s1"; "-v"]))
  = ("https://default", Some "s1").
Proof.
  assert (H : "--upload" ∉ ["--secret"; "s1"; "-v"]) by set_solver.
  split; [reflexivity|]. split; [reflexivity|]. split; [exact H|].
  rewrite (child_parses_like_parent "https://default" "python3" "watcher.py"
             "unified_watcher.py" _ eq_refl eq_refl H).
  reflexivity.
Defined.

(** A secret given as the bare argument after [--upload URL] is read by the supervisor but not passed on to the watchers, which parse the URL with the secret of the arguments before [--upload]. *)
Theorem child_loses_positional_secret (SERVER_URL executable script prog u s : string)
    (pre post : list string) :
  is_passed_flag prog = false -> is_passed_flag script = false -> "--upload" ∉ pre ->
  is_passed_flag u = false -> String.prefix "--" s = false ->
  parse_argv SERVER_URL (prog :: pre ++ "--upload" :: u :: s :: post) = (u, Some s) /\
  parse_argv SERVER_URL
    (tail (start_cmd executable script (prog :: pre ++ "--upload" :: u :: s :: post))) =
  (u, (parse_argv SERVER_URL (prog :: pre ++ ["--upload"])).2).
Proof.
  intros Hp Hs Hpre Hu Hs'. unfold parse_argv, start_cmd. cbn [tail].
  destruct (not_flag_neq prog Hp) as [Hp1 Hp2]. destruct (not_flag_neq script Hs) as [Hs1 Hs2].
  rewrite !parse_args_skip by done. split.
  - rewrite parse_args_upload by done. rewrite Hs'. done.
  - rewrite pass_through_app.
    assert (Hsf : is_passed_flag s = false) by (by apply is_passed_flag_prefix).
    assert (E : pass_through (last_arg None pre) ("--upload" :: u :: s :: post) =
                "--upload" :: u :: pass_through (Some s) post).
    { cbn [pass_through]. assert (is_passed_flag "--upload" = true) as Hf by reflexivity.
      rewrite Hf, Hu, Hsf. simpl. done. }
    rewrite E. rewrite parse_args_upload.
    2:{ intros Hin. apply pass_through_sub in Hin. done. }
    assert (E2 : pass_through None pre ++ ["--upload"] = pass_through None (pre ++ ["--upload"])).
    { rewrite pass_through_app. by destruct (last_arg None pre). }
    rewrite E2, (pass_through_parse None pre ["--upload"]) by (auto; done).
    pose proof (pass_through_head s post Hsf) as Hh.
    destruct (pass_through (Some s) post) as [|x rest]; [done|].
    assert (String.prefix "--" x = true) as Hx.
    { unfold is_passed_flag in Hh. apply orb_true_iff in Hh as [Hh|Hh];
        apply String.eqb_eq in Hh; subst x; reflexivity. }
    rewrite Hx. done.
Qed.

Lemma child_loses_positional_secret_witness :
  is_passed_flag "unified_watcher.py" = false /\ is_passed_flag "watcher.py" = false /\
  ("--upload" ∉ []) /\ is_passed_flag "https://host" = false /\
  String.prefix "--" "s3cret" = false /\
  parse_argv "https://default" ["unified_watcher.py"; "--upload"; "https://host"; "s3cret"] =
    ("https://host", Some "s3cret") /\
  parse_argv "https://default"
    (tail (start_cmd "python3" "watcher.py"
       ["unified_watcher.py"; "--upload"; "https://host"; "s3cret"])) = ("https://host", None).
Proof.
  assert (H : "--upload" ∉ ([] : list string)) by apply not_elem_of_nil.
  destruct (child_loses_positional_secret "https://default" "python3" "watcher.py"
              "unified_watcher.py" "https://host" "s3cret" [] [] eq_refl eq_refl H
              eq_refl eq_refl) as [H1 H2].
  split; [reflexivity|]. split; [reflexivity|]. split; [exact H|].
  split; [reflexivity|]. split; [reflexivity|]. split; [exact H1|].
  etrans; [exact H2|]. reflexivity.
Defined.

(** [--secret] directly followed by [--upload URL] takes [--upload] as the secret and the URL is still read; a later argument not starting with [--] then replaces the secret. *)
Theorem secret_takes_next_argument (SERVER_URL u : string) (pre post : list string) :
  "--upload" ∉ pre ->
  parse_argv SERVER_URL (pre ++ "--secret" :: "--upload" :: u :: post) =
  (u, match post with
      | x :: _ => if String.prefix "--" x then Some "--upload" else Some x
      | [] => Some "--upload"
      end).
Proof.
  intros Hpre. unfold parse_argv.
  replace (pre ++ "--secret" :: "--upload" :: u :: post)
    with ((pre ++ ["--secret"]) ++ "--upload" :: u :: post) by (rewrite <- app_assoc; done).
  rewrite parse_args_upload.
  2:{ rewrite elem_of_app, list_elem_of_singleton. intros [?|?]; done. }
  rewrite <- app_assoc. cbn [app]. rewrite parse_args_secret_last by done. done.
Qed.

Lemma secret_takes_next_argument_witness :
  ("--upload" ∉ ["watcher.py"]) /\
  parse_argv "https://default" (["watcher.py"] ++ "--secret" :: "--upload" :: "https://host" :: [])
  = ("https://host", Some "--upload").
Proof.
  assert (H : "--upload" ∉ ["watcher.py"]) by set_solver.
  split; [exact H|]. rewrite (secret_takes_next_argument "https://default" "https://host" _ [] H).
  reflexivity.
Defined.

(** Without [--upload], or with [--upload] as the last argument, the server URL stays the default. *)
Theorem upload_needs_a_value (SERVER_URL : string) (argv : list string) :
  "--upload" ∉ argv ->
  (parse_argv SERVER_URL argv).1 = SERVER_URL /\
  (parse_argv SERVER_URL (argv ++ ["--upload"])).1 = SERVER_URL.
Proof. intros H. apply parse_args_url. done. Qed.

Lemma upload_needs_a_value_witness :
  ("--upload" ∉ ["watcher.py"; "--secret"; "s1"]) /\
  (parse_argv "https://default" (["watcher.py"; "--secret"; "s1"] ++ ["--upload"])).1
  = "https://default".
Proof.
  assert (H : "--upload" ∉ ["watcher.py"; "--secret"; "s1"]) by set_solver.
  split; [exact H|]. apply (upload_needs_a_value "https://default" _ H).
Defined.

(** ** Store file names *)

Lemma string_app_inj_l (a x y : string) : (a ++ x)%string = (a ++ y)%string -> x = y.
Proof. induction a as [|c a IH]; simpl; [done|]. intros H. injection H. auto. Qed.

Lemma string_length_app (s t : string) :
  String.length (s ++ t)%string = String.length s + String.length t.
Proof. induction s as [|c s IH]; simpl; auto. Qed.

Lemma string_app_inj_r (s1 s2 t : string) : (s1 ++ t)%string = (s2 ++ t)%string -> s1 = s2.
Proof.
  revert s2. induction s1 as [|c s1 IH]; intros s2 H; destruct s2 as [|c' s2]; simpl in H.
  - done.
  - apply (f_equal String.length) in H. simpl in H. rewrite ?string_length_app in H. simpl in H. rewrite ?string_length_app in H. lia.
  - apply (f_equal String.length) in H. simpl in H. rewrite ?string_length_app in H. simpl in H. rewrite ?string_length_app in H. lia.
  - injection H as -> H. f_equal. by apply IH.
Qed.

Lemma substring_app (s t : string) (n : nat) :
  String.substring (String.length s) n (s ++ t)%string = String.substring 0 n t.
Proof. induction s as [|c s IH]; simpl; auto. Qed.

Lemma substring_full (t : string) : String.substring 0 (String.length t) t = t.
Proof. induction t as [|c t IH]; simpl; [done|]. by rewrite IH. Qed.

Lemma ends_with_app (s t : string) : ends_with t (s ++ t)%string = true.
Proof.
  unfold ends_with. rewrite string_length_app.
  replace (String.length s + String.length t - String.length t) with (String.length s) by lia.
  rewrite substring_app, substring_full. apply String.eqb_refl.
Qed.

Lemma path_join_inj (a b1 b2 : string) :
  String.prefix "/" b1 = false -> String.prefix "/" b2 = false ->
  path_join a b1 = path_join a b2 -> b1 = b2.
Proof.
  unfold path_join. intros H1 H2. rewrite H1, H2.
  destruct (_ || _); intros H; apply string_app_inj_l in H; [done|].
  injection H. done.
Qed.

(** The store files of [DATA_DIR] have pairwise distinct paths: one per pattern, the totals, the project counts and the processed ids. *)
Theorem store_files_distinct (DATA_DIR p q : string) :
  (p <> q -> pattern_counts_file DATA_DIR p <> pattern_counts_file DATA_DIR q) /\
  pattern_counts_file DATA_DIR p <> total_messages_file DATA_DIR /\
  pattern_counts_file DATA_DIR p <> PROJECT_COUNTS_FILE DATA_DIR /\
  pattern_counts_file DATA_DIR p <> PROCESSED_IDS_FILE DATA_DIR /\
  total_messages_file DATA_DIR <> PROJECT_COUNTS_FILE DATA_DIR /\
  total_messages_file DATA_DIR <> PROCESSED_IDS_FILE DATA_DIR /\
  PROJECT_COUNTS_FILE DATA_DIR <> PROCESSED_IDS_FILE DATA_DIR.
Proof.
  unfold pattern_counts_file, total_messages_file, PROJECT_COUNTS_FILE, PROCESSED_IDS_FILE.
  split.
  { intros Hpq H. apply path_join_inj in H; [|reflexivity|reflexivity].
    apply string_app_inj_l in H. apply Hpq. by apply string_app_inj_r in H. }
  split.
  { intros H. apply path_join_inj in H; [|reflexivity|reflexivity].
    change "daily_total_messages.json" with ("daily_" ++ "total_messages.json")%string in H.
    apply string_app_inj_l in H. apply (f_equal (ends_with "_counts.json")) in H.
    rewrite ends_with_app in H. discriminate H. }
  repeat split; intros H; apply path_join_inj in H; try reflexivity; discriminate H.
Qed.

(** ** Restart bookkeeping of the supervisor *)

Lemma length_filter_impl {A} (P Q : A -> Prop) `{!forall x, Decision (P x)}
    `{!forall x, Decision (Q x)} (L : list A) :
  (forall x, P x -> Q x) -> length (filter P L) <= length (filter Q L).
Proof.
  intros HPQ. induction L as [|x L IH]; [done|]. rewrite !filter_cons.
  repeat case_decide; simpl; try lia. exfalso. naive_solver.
Qed.

Lemma filter_window_mono (W c t : Z) (L : list Z) :
  (t <= c)%Z ->
  filter (fun x => (c - x <? W)%Z) (filter (fun x => (t - x <? W)%Z) L) =
  filter (fun x => (c - x <? W)%Z) L.
Proof.
  intros Htc. induction L as [|x L IH]; [done|].
  rewrite !filter_cons. case_decide as H1; [rewrite filter_cons|];
    case_decide as H2; rewrite ?IH; try done.
  exfalso. apply H1. revert H2.
  destruct (Z.ltb_spec (c - x) W), (Z.ltb_spec (t - x) W); simpl; intros; try done; lia.
Qed.

Lemma check_and_restart_bounded (t : Z) (w : Supervisor.watcher) :
  length (Supervisor.restart_times w) <= Supervisor.max_restarts w ->
  let w' := (Supervisor.check_and_restart t w).2 in
  length (Supervisor.restart_times w') <= Supervisor.max_restarts w' /\
  Supervisor.max_restarts w' = Supervisor.max_restarts w.
Proof.
  intros H. unfold Supervisor.check_and_restart.
  destruct (Supervisor.alive w); [done|].
  destruct (Nat.leb_spec (Supervisor.max_restarts w)
              (length (filter (fun x => (t - x <? Supervisor.restart_window w)%Z)
                         (Supervisor.restart_times w)))) as [Hle|Hlt]; simpl.
  - split; [|done]. etrans; [apply length_filter|done].
  - rewrite length_app. simpl. lia.
Qed.

(** The supervisor never keeps more than [max_restarts] restart times for a watcher. *)
Theorem restart_times_bounded (w : Supervisor.watcher) (checks : list (bool * Z)) :
  length (Supervisor.restart_times w) <= Supervisor.max_restarts w ->
  length (Supervisor.restart_times (Supervisor.monitor w checks).2) <= Supervisor.max_restarts w.
Proof.
  revert w. induction checks as [|[ex t] checks IH]; intros w Hw; [done|].
  cbn [Supervisor.monitor].
  set (w1 := if ex then Supervisor.crash w else w).
  assert (length (Supervisor.restart_times w1) <= Supervisor.max_restarts w1 /\
          Supervisor.max_restarts w1 = Supervisor.max_restarts w) as [Hw1 Hm1]
    by (subst w1; destruct ex; done).
  destruct (check_and_restart_bounded t w1 Hw1) as [Hw2 Hm2].
  destruct (Supervisor.check_and_restart t w1) as [b w2]. simpl in Hw2, Hm2.
  specialize (IH w2 Hw2).
  destruct (Supervisor.monitor w2 checks) as [R w3]. simpl in *. lia.
Qed.

Lemma restart_times_bounded_witness :
  length (Supervisor.restart_times Supervisor.started) <=
    Supervisor.max_restarts Supervisor.started /\
  length (Supervisor.restart_times
    (Supervisor.monitor Supervisor.started
       [(true, 0); (true, 1); (true, 2); (true, 3); (true, 4); (true, 5); (true, 6)]%Z).2)
  <= 5.
Proof.
  assert (H : length (Supervisor.restart_times Supervisor.started) <=
              Supervisor.max_restarts Supervisor.started) by (simpl; lia).
  split; [exact H|].
  apply (restart_times_bounded Supervisor.started _ H).
Defined.

Lemma monitor_rate (checks : list (bool * Z)) :
  forall (w : Supervisor.watcher) (R0 : list Z) (tl : Z),
  (forall c, (tl <= c)%Z ->
     filter (fun x => (c - x <? Supervisor.restart_window w)%Z) (Supervisor.restart_times w) =
     filter (fun x => (c - x <? Supervisor.restart_window w)%Z) R0) ->
  (forall a, length (filter (fun x => (a <= x < a + Supervisor.restart_window w)%Z) R0)
             <= Supervisor.max_restarts w) ->
  Forall (fun t => (tl <= t)%Z) (map snd checks) ->
  StronglySorted Z.le (map snd checks) ->
  let '(R, w') := Supervisor.monitor w checks in
  Supervisor.restart_count w' = Supervisor.restart_count w + length R /\
  (forall a, length (filter (fun x => (a <= x < a + Supervisor.restart_window w)%Z) (R0 ++ R))
             <= Supervisor.max_restarts w).
Proof.
  induction checks as [|[ex t] checks IH]; intros w R0 tl Hinv HP Hge Hs.
  - simpl. rewrite app_nil_r. split; [lia|done].
  - cbn [Supervisor.monitor map snd] in *.
    apply Forall_cons in Hge as [Ht _].
    apply StronglySorted_inv in Hs as [Hs Hall].
    set (w1 := if ex then Supervisor.crash w else w).
    assert (Supervisor.restart_times w1 = Supervisor.restart_times w /\
            Supervisor.restart_window w1 = Supervisor.restart_window w /\
            Supervisor.max_restarts w1 = Supervisor.max_restarts w /\
            Supervisor.restart_count w1 = Supervisor.restart_count w) as (E1 & E2 & E3 & E4)
      by (subst w1; destruct ex; done).
    clearbody w1.
    assert (Hall' : Forall (fun x => (t <= x)%Z) (map snd checks)) by exact Hall.
    unfold Supervisor.check_and_restart.
    destruct (Supervisor.alive w1).
    + specialize (IH w1 R0 t).
      destruct (Supervisor.monitor w1 checks) as [R w3].
      rewrite E2, E3, E4, E1 in IH.
      destruct IH as [IH1 IH2]; [|done|done|done|].
      { intros c Hc. apply Hinv. lia. }
      simpl. split; [lia|done].
    + rewrite E1, E2, E3.
      set (times := filter (fun x => (t - x <? Supervisor.restart_window w)%Z)
                      (Supervisor.restart_times w)).
      assert (Ht0 : times = filter (fun x => (t - x <? Supervisor.restart_window w)%Z) R0)
        by (apply Hinv; done).
      destruct (Nat.leb_spec (Supervisor.max_restarts w) (length times)) as [Hle|Hlt].
      * specialize (IH (Supervisor.mkWatcher (Supervisor.restart_count w1)
                          (Supervisor.max_restarts w) (Supervisor.restart_window w) times false)
                       R0 t).
        destruct (Supervisor.monitor _ checks) as [R w3]. simpl in IH.
        destruct IH as [IH1 IH2]; [|done|done|done|].
        { intros c Hc. rewrite Ht0. apply filter_window_mono. done. }
        rewrite E4 in IH1. simpl. split; [lia|done].
      * specialize (IH (Supervisor.mkWatcher (S (Supervisor.restart_count w1))
                          (Supervisor.max_restarts w) (Supervisor.restart_window w)
                          (times ++ [t]) true)
                       (R0 ++ [t]) t).
        destruct (Supervisor.monitor _ checks) as [R w3]. simpl in IH.
        destruct IH as [IH1 IH2]; [| |done|done|].
        { intros c Hc. rewrite !filter_app. rewrite Ht0, filter_window_mono by done. done. }
        { intros a. rewrite filter_app, length_app.
          rewrite filter_cons, filter_nil. case_decide as Hin; simpl.
          - assert (length (filter (fun x => (a <= x < a + Supervisor.restart_window w)%Z) R0)
                    <= length times) as Hsub.
            { rewrite Ht0. apply length_filter_impl. intros x Hx.
              destruct (Z.ltb_spec (t - x) (Supervisor.restart_window w)); [done|lia]. }
            lia.
          - specialize (HP a). lia. }
        rewrite E4 in IH1. simpl. split; [lia|]. intros a. specialize (IH2 a). rewrite <- app_assoc in IH2. exact IH2.
Qed.

(** With checks at non-decreasing times, a watcher is restarted at most [max_restarts] times within any time window of length [restart_window], and [restart_count] counts every restart. *)
Theorem restarts_rate_limited (w : Supervisor.watcher) (checks : list (bool * Z)) :
  Supervisor.restart_times w = [] ->
  StronglySorted Z.le (map snd checks) ->
  let '(R, w') := Supervisor.monitor w checks in
  Supervisor.restart_count w' = Supervisor.restart_count w + length R /\
  (forall a : Z,
     length (filter (fun t => (a <= t < a + Supervisor.restart_window w)%Z) R)
     <= Supervisor.max_restarts w).
Proof.
  intros H0 Hs.
  assert (exists tl, Forall (fun t => (tl <= t)%Z) (map snd checks)) as [tl Htl].
  { destruct checks as [|[ex t] checks]; [exists 0%Z; constructor|].
    exists t. cbn [map snd] in *. apply StronglySorted_inv in Hs as [_ Hall].
    constructor; [lia|exact Hall]. }
  pose proof (monitor_rate checks w [] tl) as H.
  destruct (Supervisor.monitor w checks) as [R w']. apply H; [|intros; simpl; lia|done|done].
  intros c _. rewrite H0. done.
Qed.

Lemma restarts_rate_limited_witness :
  Supervisor.restart_times Supervisor.started = [] /\
  StronglySorted Z.le (map snd [(true, 0); (true, 1); (true, 2); (true, 3); (true, 4);
                                (true, 5); (true, 70)]%Z) /\
  length (Supervisor.monitor Supervisor.started
    [(true, 0); (true, 1); (true, 2); (true, 3); (true, 4); (true, 5); (true, 70)]%Z).1 = 6 /\
  length (filter (fun t => (0 <= t < 0 + 60)%Z)
    (Supervisor.monitor Supervisor.started
       [(true, 0); (true, 1); (true, 2); (true, 3); (true, 4); (true, 5); (true, 70)]%Z).1)
  <= 5.
Proof.
  assert (H1 : Supervisor.restart_times Supervisor.started = []) by reflexivity.
  assert (H2 : StronglySorted Z.le (map snd [(true, 0); (true, 1); (true, 2); (true, 3);
                 (true, 4); (true, 5); (true, 70)]%Z)).
  { simpl. repeat constructor; lia. }
  pose proof (restarts_rate_limited Supervisor.started _ H1 H2) as H.
  split; [exact H1|]. split; [exact H2|]. split; [reflexivity|].
  destruct (Supervisor.monitor Supervisor.started _) as [R w'] eqn:E.
  destruct H as [_ H]. apply (H 0%Z).
Defined.
